(** * The youtube-summary endpoint of the dashboard

    A shallow embedding of
    [apps/dashboard/pages/api/tools/youtube-summary/index.ts]:
    the transcript grouping and text assembly as pure functions, and the
    [createYoutubeSummary] handler as a program in a small monad that
    threads the persistent store and the request-rate counter, records the
    calls made to the outside world and propagates exceptions.

    Modelling conventions.
    - A JS string is a [string]; its characters stand for code units below
      256, which is all the grouping and formatting code ever inspects
      (white space, the dash, the space).
    - A transcript offset is a whole number of milliseconds, a [Z].
    - [undefined] is [None]; a thrown exception is the left injection of a
      sum. *)

From Stdlib Require Import ZArith List Bool Lia Ascii String QArith Qround.
From Stdlib Require Import Numbers.DecimalString.
From Stdlib Require Import Sorted Permutation.
Import ListNotations.

Open Scope string_scope.
Open Scope list_scope.
Open Scope Z_scope.

(** String concatenation, [a + b] and the pieces of a template literal. *)
Infix "+++" := String.append (right associativity, at level 60).

(** ** JavaScript string primitives used by the handler *)

Module JS.

(** The code units below 256 that [String.prototype.trim] removes:
    TAB, LF, VT, FF, CR, SPACE and NO-BREAK SPACE. *)
Definition isWhiteSpace (c : ascii) : bool :=
  match nat_of_ascii c with
  | 9%nat | 10%nat | 11%nat | 12%nat | 13%nat | 32%nat | 160%nat => true
  | _ => false
  end.

Fixpoint trimStart (s : string) : string :=
  match s with
  | EmptyString => EmptyString
  | String c s' => if isWhiteSpace c then trimStart s' else s
  end.

Fixpoint trimEnd (s : string) : string :=
  match s with
  | EmptyString => EmptyString
  | String c s' =>
      match trimEnd s' with
      | EmptyString => if isWhiteSpace c then EmptyString else String c EmptyString
      | r => String c r
      end
  end.

Definition trim (s : string) : string := trimEnd (trimStart s).

(** [s.startsWith(p)] *)
Definition startsWith (s p : string) : bool := String.prefix p s.

(** [s.replace(/^- /, '')]: the pattern is anchored at the start of the
    string and has no flag, so at most the leading dash and space go. *)
Definition replace_leading_dash (s : string) : string :=
  match s with
  | String c1 (String c2 s') =>
      if ((c1 =? "-") && (c2 =? " "))%char then s' else s
  | _ => s
  end.

(** [Math.ceil(x / 1000)] on a whole number [x]. *)
Definition ceil_div (x d : Z) : Z := - ((- x) / d).

(** [`${n}`] for an integral number [n]. *)
Definition Z_to_string (n : Z) : string := NilZero.string_of_int (Z.to_int n).

(** [`${v}`] for a string that may be [undefined]. *)
Definition show (v : option string) : string :=
  match v with
  | Some s => s
  | None => "undefined"
  end.

(** [arr.reduce(f, init)], the callback receiving the index as well. *)
Fixpoint reduce_from {A B : Type} (f : B -> A -> nat -> B)
  (index : nat) (arr : list A) (acc : B) : B :=
  match arr with
  | [] => acc
  | item :: rest => reduce_from f (S index) rest (f acc item index)
  end.

Definition reduce {A B : Type} (f : B -> A -> nat -> B) (arr : list A) (init : B) : B :=
  reduce_from f 0 arr init.

(** [arr.join(sep)] *)
Definition join (sep : string) (arr : list string) : string := String.concat sep arr.

Definition newline : string := String (ascii_of_nat 10) EmptyString.

End JS.

(** ** Transcript lines and grouped segments *)

(** One timed caption, as [YoutubeApi.transcribeVideo] yields them. *)
Record Transcript : Type := mkTranscript {
  text : string;
  offset : Z
}.

(** The accumulator of the [reduce] in [groupBySentences] starts as [{}]
    cast to the type of a transcript: an object whose fields may be
    missing. *)
Record Segment : Type := mkSegment {
  seg_text : option string;
  seg_offset : option Z
}.

Definition empty_object : Segment := mkSegment None None.

(** [{ ...item }] *)
Definition spread (item : Transcript) : Segment :=
  mkSegment (Some (text item)) (Some (offset item)).

(** [transcript.text.trim().startsWith('-')] *)
Definition startsWithDash (transcript : Transcript) : bool :=
  JS.startsWith (JS.trim (text transcript)) "-".

(** The body of [t.forEach], on the pair of [groupedTranscripts] and
    [currentGroup]. *)
Definition forEach_body (st : list (list Transcript) * list Transcript)
  (transcript : Transcript) : list (list Transcript) * list Transcript :=
  let '(groupedTranscripts, currentGroup) := st in
  let '(groupedTranscripts, currentGroup) :=
    if startsWithDash transcript then
      if (0 <? List.length currentGroup)%nat
      then (groupedTranscripts ++ [currentGroup], [])
      else (groupedTranscripts, currentGroup)
    else (groupedTranscripts, currentGroup) in
  (groupedTranscripts, currentGroup ++ [transcript]).

(** The callback of [each.reduce]. *)
Definition merge_item (acc : Segment) (item : Transcript) (index : nat) : Segment :=
  if (index =? 0)%nat then spread item
  else mkSegment (Some (JS.show (seg_text acc) +++ " " +++ text item)) (seg_offset acc).

(** The groups of lines before they are merged. *)
Definition groupedTranscripts (t : list Transcript) : list (list Transcript) :=
  let '(grouped, currentGroup) := fold_left forEach_body t ([], []) in
  if (0 <? List.length currentGroup)%nat then grouped ++ [currentGroup] else grouped.

Definition groupBySentences (t : list Transcript) : list Segment :=
  map (fun each => JS.reduce merge_item each empty_object) (groupedTranscripts t).

(** ** Text assembly *)

(** [`${Math.ceil(each.offset / 1000)}s`]; a missing offset gives [NaN]. *)
Definition format_offset (o : option Z) : string :=
  match o with
  | Some ms => JS.Z_to_string (JS.ceil_div ms 1000) +++ "s"
  | None => "NaNs"
  end.

(** The two [map]s over the grouped segments. *)
Definition format_segment (each : Segment) : string :=
  let text' := option_map JS.replace_leading_dash (seg_text each) in
  let offset' := format_offset (seg_offset each) in
  "[" +++ offset' +++ "] " +++ JS.show text'.

(** The constant [text] of the handler. *)
Definition assemble (transcripts : list Transcript) : string :=
  JS.join JS.newline (map format_segment (groupBySentences transcripts)).

(** ** The outside world

    Everything the handler imports is outside the file: the request schema,
    the YouTube client, the tokenizer, the rate-limit middleware, the chat
    model, the tool-argument parser, the id generator and the database
    client.  The answers of the services are the fields of [Services]; the
    database table and the request-rate counter are the [World] that the
    handler's monad threads. *)

(** An opaque JSON value. *)
Definition Json : Type := string.

Inductive Exception : Type :=
| Error (message : string)          (* [new Error(message)] *)
| ZodError (issues : string)        (* a schema that does not validate *)
| Rejected (reason : string)        (* a service whose promise rejects *)
| RateLimitExceeded                 (* the throttle refuses the request *)
| UniqueConstraintFailed.           (* the store refuses a duplicate key *)

(** [LLMTaskOutputType.youtube_summary]; at run time the enumeration is the
    string the payload spells out. *)
Definition youtube_summary : string := "youtube_summary".

(** [output: { metadata: {...videoSnippet}, en: {...data} }] *)
Record Output : Type := mkOutput {
  metadata : Json;
  en : Json
}.

(** A Summary Record, one row of [prisma.lLMTaskOutput]. *)
Record LLMTaskOutput : Type := mkLLMTaskOutput {
  id : string;
  externalId : string;
  type : string;
  output : Output;
  usage : Json
}.

(** What the handler reads of the request. *)
Record AppNextApiRequest : Type := mkRequest {
  body : Json;
  query_refresh : option string;          (* [req.query.refresh] *)
  session_roles : option (list string);   (* [req?.session?.roles] *)
  ip : string                             (* the caller the throttle counts *)
}.

(** What the handler reads of [model.call]'s result. *)
Record Completion : Type := mkCompletion {
  arguments : option string;   (* [choices[0].message.tool_calls[0].function.arguments] *)
  completion_usage : Json      (* [result?.usage] *)
}.

Record Services : Type := mkServices {
  YoutubeSummarySchema_parse : Json -> Exception + string;
  extractVideoId : string -> option string;
  getVideoSnippetById : option string -> Exception + Json;
  transcribeVideo : string -> Exception + list Transcript;
  encode : string -> list positive;        (* the tokenizer behind [countTokens] *)
  decode : list positive -> string;
  maxTokens : Z;                           (* [ModelConfig[gpt_4_turbo].maxTokens] *)
  model_call : string -> Exception + Completion;
  zodParseJSON : option string -> Exception + Json;
  cuid : string;                           (* what [cuid()] returns to this request *)
  now : Z                                  (* the clock of the throttle, in seconds *)
}.

(** The calls that leave the process, in the order they are issued. *)
Inductive Call : Type :=
| GetVideoSnippetById (videoId : option string)
| FindUnique (type_ externalId_ : string)
| TranscribeVideo (url : string)
| RateLimit (duration limit : Z)
| ModelCall (content : string)
| Upsert (payload : LLMTaskOutput).

Record World : Type := mkWorld {
  lLMTaskOutput : list LLMTaskOutput;   (* the table of Summary Records *)
  hits : list (string * Z)              (* admitted requests: caller and time *)
}.

(** ** The handler's monad: state, exceptions and the trace of calls *)

Record Outcome (A : Type) : Type := mkOutcome {
  result : Exception + A;
  world : World;
  calls : list Call
}.
Arguments mkOutcome {A}.
Arguments result {A}.
Arguments world {A}.
Arguments calls {A}.

Definition M (A : Type) : Type := World -> Outcome A.

Definition ret {A : Type} (a : A) : M A :=
  fun w => mkOutcome (inr a) w [].

Definition throw {A : Type} (e : Exception) : M A :=
  fun w => mkOutcome (inl e) w [].

Definition bind {A B : Type} (m : M A) (k : A -> M B) : M B :=
  fun w =>
    match m w with
    | mkOutcome (inl e) w1 calls1 => mkOutcome (inl e) w1 calls1
    | mkOutcome (inr a) w1 calls1 =>
        match k a w1 with
        | mkOutcome r w2 calls2 => mkOutcome r w2 (calls1 ++ calls2)
        end
    end.

Notation "x <- m ;; k" := (bind m (fun x => k))
  (at level 61, m at next level, right associativity).

(** A computation of the process itself that may throw. *)
Definition lift {A : Type} (r : Exception + A) : M A :=
  fun w => mkOutcome r w [].

(** An awaited call to a service: it is recorded, then it answers or
    rejects. *)
Definition await {A : Type} (c : Call) (r : Exception + A) : M A :=
  fun w => mkOutcome r w [c].

(** ** The persistent store *)

Definition has_key (type_ externalId_ : string) (r : LLMTaskOutput) : bool :=
  (type r =? type_)%string && (externalId r =? externalId_)%string.

Definition has_id (id_ : string) (r : LLMTaskOutput) : bool :=
  (id r =? id_)%string.

(** Modelled from the spec: the database client behind
    [prisma.lLMTaskOutput.findUnique({ where: { unique_external_id } })] is
    not among the sources; section 6 calls it a "point lookup by composite
    unique key". *)
Definition findUnique (type_ externalId_ : string) : M (option LLMTaskOutput) :=
  fun w =>
    mkOutcome (inr (find (has_key type_ externalId_) (lLMTaskOutput w))) w
      [FindUnique type_ externalId_].

(** Another row already holds the key of [payload]. *)
Definition key_taken (payload : LLMTaskOutput) (table : list LLMTaskOutput) : bool :=
  existsb (fun r => negb (has_id (id payload) r)
                    && has_key (type payload) (externalId payload) r) table.

Definition replace_row (payload : LLMTaskOutput) (table : list LLMTaskOutput)
  : list LLMTaskOutput :=
  map (fun r => if has_id (id payload) r then payload else r) table.

(** Modelled from the spec: the database client behind
    [prisma.lLMTaskOutput.upsert({ where: { id }, create: payload, update:
    payload })] is not among the sources; section 6 calls it a "point upsert
    by primary id", section 4.5 "create-or-replace, not merge", and section
    3 has the unique constraint on [(type, externalId)] "enforced by the
    store".  The payload carries every column, so the row with that id
    becomes the payload, or is created as the payload. *)
Definition upsert (payload : LLMTaskOutput) : M LLMTaskOutput :=
  fun w =>
    let table := lLMTaskOutput w in
    if key_taken payload table then
      mkOutcome (inl UniqueConstraintFailed) w [Upsert payload]
    else
      let table' :=
        if existsb (has_id (id payload)) table
        then replace_row payload table
        else table ++ [payload] in
      mkOutcome (inr payload) (mkWorld table' (hits w)) [Upsert payload].

(** ** The throttle *)

(** The admitted requests of [caller] in the [duration] seconds that end at
    [time]. *)
Definition recent_hits (duration : Z) (caller : string) (time : Z)
  (hs : list (string * Z)) : list (string * Z) :=
  filter (fun h => (fst h =? caller)%string && (time - duration <? snd h)) hs.

(** Modelled from the spec: the [rateLimit] middleware is not among the
    sources; section 4.4 says "a request-level throttle (N calls per time
    window) is applied before issuing the call; exceeding it fails the
    request without making the call".  A caller is admitted, and counted,
    while fewer than [limit] of its admitted requests lie within the last
    [duration] seconds; otherwise the middleware throws. *)
Definition rateLimit (duration limit : Z) (caller : string) (time : Z) : M unit :=
  fun w =>
    if Z.of_nat (List.length (recent_hits duration caller time (hits w))) <? limit
    then mkOutcome (inr tt) (mkWorld (lLMTaskOutput w) ((caller, time) :: hits w))
           [RateLimit duration limit]
    else mkOutcome (inl RateLimitExceeded) w [RateLimit duration limit].

(** ** The splitter *)

(** Modelled from the spec: [countTokens] is not among the sources; it
    counts the tokens the tokenizer, a parameter, makes of a text. *)
Definition countTokens (sv : Services) (s : string) : nat :=
  List.length (encode sv s).

(** The text is within the token budget. *)
Definition fits (sv : Services) (s : string) (budget : Q) : bool :=
  Qle_bool (inject_Z (Z.of_nat (countTokens sv s))) budget.

(** Consecutive slices of [n] tokens; [fuel] bounds their number. *)
Fixpoint slices {A : Type} (fuel n : nat) (ids : list A) : list (list A) :=
  match fuel, ids with
  | O, _ | _, [] => []
  | S fuel', _ => firstn n ids :: slices fuel' n (skipn n ids)
  end.

(** Modelled from the spec: [splitTextByToken] is not among the sources;
    section 4.3 says it "truncates/splits the assembled text into one or
    more chunks bounded by a token budget", and "if assembled text already
    fits within budget, a single chunk is produced unchanged".  A text over
    the budget is cut into slices of as many whole tokens as the budget
    holds, each decoded back to text. *)
Definition splitTextByToken (sv : Services) (text_ : string) (chunkSize : Q)
  : list string :=
  if fits sv text_ chunkSize then [text_]
  else
    let ids := encode sv text_ in
    map (decode sv) (slices (List.length ids) (Z.to_nat (Qfloor chunkSize)) ids).

(** ** createYoutubeSummary *)

(** [req.query.refresh === 'true' && req?.session?.roles?.includes?.('SUPERADMIN')] *)
Definition refresh_requested (req : AppNextApiRequest) : bool :=
  match query_refresh req with
  | Some q => (q =? "true")%string
  | None => false
  end
  &&
  match session_roles req with
  | Some roles => existsb (String.eqb "SUPERADMIN") roles
  | None => false
  end.

(** [!videoId] is false on a non-empty string only. *)
Definition truthy (videoId : option string) : option string :=
  match videoId with
  | Some EmptyString | None => None
  | Some v => Some v
  end.

(** [found?.id || cuid()] *)
Definition choose_id (sv : Services) (found : option LLMTaskOutput) : string :=
  match found with
  | Some f => if (id f =? "")%string then cuid sv else id f
  | None => cuid sv
  end.

(** [ModelConfig[modelName].maxTokens * 0.7] *)
Definition chunkSize (sv : Services) : Q := inject_Z (maxTokens sv) * (7 # 10).

(** The content of the user message. *)
Definition user_message (chunkedText : option string) : string :=
  "Youtube video transcript: " +++ JS.show chunkedText.

Definition createYoutubeSummary (sv : Services) (req : AppNextApiRequest)
  : M LLMTaskOutput :=
  url <- lift (YoutubeSummarySchema_parse sv (body req)) ;;
  let videoId := extractVideoId sv url in
  videoSnippet <- await (GetVideoSnippetById videoId)
                    (getVideoSnippetById sv videoId) ;;
  let refresh := refresh_requested req in
  match truthy videoId with
  | None => throw (Error "The url is not a valid youtube video.")
  | Some videoId =>
      found <- findUnique youtube_summary videoId ;;
      match found, refresh with
      | Some record, false => ret record
      | _, _ =>
          transcripts <- await (TranscribeVideo url) (transcribeVideo sv url) ;;
          let text_ := assemble transcripts in
          let chunkedText := hd_error (splitTextByToken sv text_ (chunkSize sv)) in
          _ <- rateLimit 60 2 (ip req) (now sv) ;;
          let content := user_message chunkedText in
          completion <- await (ModelCall content) (model_call sv content) ;;
          data <- lift (zodParseJSON sv (arguments completion)) ;;
          let id_ := choose_id sv found in
          let payload :=
            mkLLMTaskOutput id_ videoId "youtube_summary"
              (mkOutput videoSnippet data) (completion_usage completion) in
          output_ <- upsert payload ;;
          ret output_
      end
  end.

(** ** Reading a trace *)

Definition no_model_call (cs : list Call) : Prop :=
  forall content, ~ In (ModelCall content) cs.

Definition no_upsert (cs : list Call) : Prop :=
  forall payload, ~ In (Upsert payload) cs.

(** ** The grouping rule in the words of the specification

    "Scan lines in order; start a new accumulating group whenever a line's
    trimmed text begins with a dash marker (except immediately after start,
    where the first group already exists); otherwise append text
    (space-joined) to the current group, retaining the first line's offset
    as the group's offset.  Flush the final group at end of input."  The
    accumulating group is a text and an offset; there is none before the
    first line. *)
Fixpoint scan_spec (current : option (string * Z)) (lines : list Transcript)
  : list (string * Z) :=
  match lines with
  | [] =>
      match current with
      | Some group => [group]
      | None => []
      end
  | line :: rest =>
      match current with
      | None => scan_spec (Some (text line, offset line)) rest
      | Some (gtext, goffset) =>
          if startsWithDash line
          then (gtext, goffset) :: scan_spec (Some (text line, offset line)) rest
          else scan_spec (Some (gtext +++ " " +++ text line, goffset)) rest
      end
  end.

Definition groupBySentences_spec (lines : list Transcript) : list Segment :=
  map (fun group => mkSegment (Some (fst group)) (Some (snd group)))
    (scan_spec None lines).

(** A Grouped Segment as the data model words it: the concatenated text of
    a run of lines, keyed by the first line's offset. *)
Definition segment_spec (run : list Transcript) : Segment :=
  mkSegment (Some (JS.join " " (map text run))) (option_map offset (hd_error run)).

(** The formatted line of a group: the offset in seconds, rounded up, in
    brackets, then the text without its leading dash and space. *)
Definition format_spec (group : string * Z) : string :=
  "[" +++ JS.Z_to_string (JS.ceil_div (snd group) 1000) +++ "s] "
  +++ JS.replace_leading_dash (fst group).

(** The groups that the [forEach] leaves, read off the input directly:
    [current] is the group being filled. *)
Fixpoint runs_from (current : list Transcript) (lines : list Transcript)
  : list (list Transcript) :=
  match lines with
  | [] => [current]
  | line :: rest =>
      if startsWithDash line then current :: runs_from [line] rest
      else runs_from (current ++ [line]) rest
  end.

(** ** A concrete world to run the handler in *)

Module Sample.

Definition lines : list Transcript :=
  [mkTranscript "- Intro" 0; mkTranscript "more" 1200;
   mkTranscript "- Next part" 5000].

(** A tokenizer with one token per character. *)
Definition char_encode (s : string) : list positive :=
  map (fun c => Pos.of_succ_nat (nat_of_ascii c)) (list_ascii_of_string s).

Definition char_decode (ids : list positive) : string :=
  string_of_list_ascii (map (fun p => ascii_of_nat (Nat.pred (Pos.to_nat p))) ids).

(** Urls of the form [v=<id>] carry an id. *)
Definition parse_id (url : string) : option string :=
  if String.prefix "v=" url
  then Some (String.substring 2 (String.length url - 2) url)
  else None.

(** A world whose metadata service gives [snippet] and whose model gives
    a tool call with [tool_arguments]; [time] is the clock of the throttle
    and [fresh_id] what [cuid()] would mint. *)
Definition make_services (snippet : Exception + Json)
  (tool_arguments : option string) (time : Z) (fresh_id : string) : Services := {|
  YoutubeSummarySchema_parse := fun b => inr b;
  extractVideoId := parse_id;
  getVideoSnippetById := fun _ => snippet;
  transcribeVideo := fun _ => inr lines;
  encode := char_encode;
  decode := char_decode;
  maxTokens := 20;
  model_call := fun _ => inr (mkCompletion tool_arguments "usage");
  zodParseJSON := fun a =>
    match a with
    | Some s => inr s
    | None => inl (ZodError "Required")
    end;
  cuid := fresh_id;
  now := time
|}.

(** Every service answers. *)
Definition services_with (time : Z) (fresh_id : string) : Services :=
  make_services (inr "snippet") (Some "summary") time fresh_id.

Definition services : Services := services_with 100 "ck0".

(** The metadata service is down. *)
Definition services_snippet_down : Services :=
  make_services (inl (Rejected "quotaExceeded")) (Some "summary") 100 "ck0".

(** The tool call of the model carries no arguments. *)
Definition services_malformed : Services :=
  make_services (inr "snippet") None 100 "ck0".

Definition request (url : string) : AppNextApiRequest :=
  mkRequest url None None "10.0.0.1".

Definition refresh_request (url : string) : AppNextApiRequest :=
  mkRequest url (Some "true") (Some ["SUPERADMIN"]) "10.0.0.1".

Definition stored : LLMTaskOutput :=
  mkLLMTaskOutput "ck9" "abc" "youtube_summary" (mkOutput "old snippet" "old summary") "old usage".

Definition empty_world : World := mkWorld [] [].

Definition cached_world : World := mkWorld [stored] [].

End Sample.

(** ** The list of the latest summaries *)

(** Puts [row] into a list that is ordered by [createdAt], newest first. *)
Fixpoint insert_desc (createdAt : LLMTaskOutput -> Z) (row : LLMTaskOutput)
  (ordered : list LLMTaskOutput) : list LLMTaskOutput :=
  match ordered with
  | [] => [row]
  | x :: rest =>
      if createdAt x <? createdAt row then row :: x :: rest
      else x :: insert_desc createdAt row rest
  end.

(** [orderBy: { createdAt: 'desc' }] *)
Definition orderBy_desc (createdAt : LLMTaskOutput -> Z)
  (rows : list LLMTaskOutput) : list LLMTaskOutput :=
  fold_right (insert_desc createdAt) [] rows.

(** Modelled from the spec: the database client behind
    [prisma.lLMTaskOutput.findMany({ where: { type }, take, orderBy: {
    createdAt: 'desc' } })] is not among the sources; section 6 calls it a
    "bounded list query ordered by creation time descending".  The column
    [createdAt], which the record above does not carry, is a parameter. *)
Definition findMany (createdAt : LLMTaskOutput -> Z) (type_ : string)
  (take : nat) (table : list LLMTaskOutput) : list LLMTaskOutput :=
  firstn take
    (orderBy_desc createdAt (filter (fun r => (type r =? type_)%string) table)).

(** [getLatestVideos]: the handler of GET. *)
Definition getLatestVideos (createdAt : LLMTaskOutput -> Z) (w : World)
  : list LLMTaskOutput :=
  findMany createdAt youtube_summary 3 (lLMTaskOutput w).

(** ** Further ways to read lines and traces *)

(** Every character of the string is one that [trim] removes. *)
Fixpoint all_whitespace (s : string) : bool :=
  match s with
  | EmptyString => true
  | String c s' => JS.isWhiteSpace c && all_whitespace s'
  end.

(** The place of a call in the flow of [createYoutubeSummary]. *)
Definition rank (c : Call) : nat :=
  match c with
  | GetVideoSnippetById _ => 0
  | FindUnique _ _ => 1
  | TranscribeVideo _ => 2
  | RateLimit _ _ => 3
  | ModelCall _ => 4
  | Upsert _ => 5
  end.

(** A world whose chat model is down. *)
Definition services_model_down : Services := {|
  YoutubeSummarySchema_parse := fun b => inr b;
  extractVideoId := Sample.parse_id;
  getVideoSnippetById := fun _ => inr "snippet";
  transcribeVideo := fun _ => inr Sample.lines;
  encode := Sample.char_encode;
  decode := Sample.char_decode;
  maxTokens := 20;
  model_call := fun _ => inl (Rejected "overloaded");
  zodParseJSON := fun a =>
    match a with
    | Some s => inr s
    | None => inl (ZodError "Required")
    end;
  cuid := "ck0";
  now := 100
|}.

(** A world whose transcript service is down. *)
Definition services_transcript_down : Services := {|
  YoutubeSummarySchema_parse := fun b => inr b;
  extractVideoId := Sample.parse_id;
  getVideoSnippetById := fun _ => inr "snippet";
  transcribeVideo := fun _ => inl (Rejected "no captions");
  encode := Sample.char_encode;
  decode := Sample.char_decode;
  maxTokens := 20;
  model_call := fun _ => inr (mkCompletion (Some "summary") "usage");
  zodParseJSON := fun a =>
    match a with
    | Some s => inr s
    | None => inl (ZodError "Required")
    end;
  cuid := "ck0";
  now := 100
|}.

(** ** Proof automation for the handler *)

(** Unfolds the handler and splits on every answer and test it meets. *)
Ltac split_test x :=
  lazymatch x with
  | context [match _ with _ => _ end] => fail
  | _ => destruct x eqn:?
  end.

Ltac run_handler :=
  cbv beta iota zeta
    delta [createYoutubeSummary bind lift await throw ret
           findUnique rateLimit upsert] in *;
  repeat (match goal with
          | |- context [match ?x with _ => _ end] => split_test x
          | H : context [match ?x with _ => _ end] |- _ => split_test x
          end;
          cbv beta iota in *);
  cbn [result world calls lLMTaskOutput hits app] in *.

(** Settles a goal about an explicit trace. *)
Ltac trace_solve :=
  unfold no_model_call, no_upsert in *; cbn [In] in *;
  intuition (try discriminate; try congruence).

(** * Properties *)

(** ** Strings *)

Lemma append_assoc (a b c : string) : (a +++ b) +++ c = a +++ b +++ c.
Proof. induction a as [|x a IH]; simpl; [reflexivity | now rewrite IH]. Qed.

Lemma append_nil_r (a : string) : a +++ "" = a.
Proof. induction a as [|x a IH]; simpl; [reflexivity | now rewrite IH]. Qed.

Lemma join_cons (sep x y : string) (l : list string) :
  JS.join sep (x :: y :: l) = x +++ sep +++ JS.join sep (y :: l).
Proof. reflexivity. Qed.

Lemma join_app (sep : string) (a b : list string) :
  a <> [] -> b <> [] ->
  JS.join sep (a ++ b) = JS.join sep a +++ sep +++ JS.join sep b.
Proof.
  intros Ha Hb. induction a as [|x a IH]; [congruence|].
  destruct a as [|y a].
  - destruct b as [|z b]; [congruence | reflexivity].
  - change ((x :: y :: a) ++ b) with (x :: y :: (a ++ b)).
    rewrite !join_cons.
    change (y :: a ++ b) with ((y :: a) ++ b).
    rewrite IH by discriminate. now rewrite !append_assoc.
Qed.

Lemma join_concat (sep : string) (runs : list (list string)) :
  Forall (fun r => r <> []) runs ->
  JS.join sep (map (JS.join sep) runs) = JS.join sep (List.concat runs).
Proof.
  induction 1 as [|r runs Hr Hruns IH]; [reflexivity|].
  destruct runs as [|r' runs].
  - simpl. now rewrite app_nil_r.
  - change (map (JS.join sep) (r :: r' :: runs))
      with (JS.join sep r :: JS.join sep r' :: map (JS.join sep) runs).
    rewrite join_cons.
    change (JS.join sep r' :: map (JS.join sep) runs)
      with (map (JS.join sep) (r' :: runs)).
    rewrite IH. change (List.concat (r :: r' :: runs)) with (r ++ List.concat (r' :: runs)).
    rewrite join_app; [reflexivity | assumption |].
    inversion Hruns as [|? ? Hr' _]; subst. simpl.
    destruct r'; [congruence | discriminate].
Qed.

(** What [replace(/^- /, '')] does, by the two leading characters. *)
Lemma replace_leading_dash_spec (s : string) :
  (forall s', s = "- " +++ s' -> JS.replace_leading_dash s = s') /\
  (JS.startsWith s "- " = false -> JS.replace_leading_dash s = s).
Proof.
  split.
  - intros s' ->. reflexivity.
  - unfold JS.startsWith, JS.replace_leading_dash. simpl.
    destruct s as [|c1 [|c2 s]]; try reflexivity.
    destruct (ascii_dec "-" c1) as [<-|n1]; [|destruct (Ascii.eqb_spec c1 "-"); [congruence|reflexivity]].
    destruct (ascii_dec " " c2) as [<-|n2]; [|destruct (Ascii.eqb_spec c2 " "); [congruence|reflexivity]].
    destruct s; discriminate.
Qed.

Lemma ceil_div_1000 (ms : Z) :
  1000 * (JS.ceil_div ms 1000 - 1) < ms <= 1000 * JS.ceil_div ms 1000.
Proof.
  unfold JS.ceil_div.
  pose proof (Z.div_mod (- ms) 1000 ltac:(lia)).
  pose proof (Z.mod_pos_bound (- ms) 1000 ltac:(lia)). lia.
Qed.

(** ** Grouping *)

Lemma forEach_runs (lines : list Transcript) :
  forall grouped current, current <> [] ->
    (let '(g, c) := fold_left forEach_body lines (grouped, current) in
     if (0 <? List.length c)%nat then g ++ [c] else g)
    = grouped ++ runs_from current lines.
Proof.
  induction lines as [|line rest IH]; intros grouped current Hc.
  - simpl. destruct current; [congruence | reflexivity].
  - cbn [fold_left]. destruct (startsWithDash line) eqn:E.
    + replace (forEach_body (grouped, current) line)
        with (grouped ++ [current], [line])
        by (unfold forEach_body; rewrite E; destruct current;
            [congruence | reflexivity]).
      rewrite IH by discriminate. cbn [runs_from]. rewrite E.
      now rewrite <- app_assoc.
    + replace (forEach_body (grouped, current) line)
        with (grouped, current ++ [line])
        by (unfold forEach_body; rewrite E; reflexivity).
      rewrite IH; [cbn [runs_from]; now rewrite E|].
      destruct current; [congruence | discriminate].
Qed.

Lemma groupedTranscripts_cons (line : Transcript) (rest : list Transcript) :
  groupedTranscripts (line :: rest) = runs_from [line] rest.
Proof.
  unfold groupedTranscripts. cbn [fold_left].
  assert (E : forEach_body ([], []) line = ([], [line])).
  { unfold forEach_body. simpl. now destruct (startsWithDash line). }
  rewrite E. exact (forEach_runs rest [] [line] ltac:(discriminate)).
Qed.

Lemma runs_from_concat (lines : list Transcript) :
  forall current, List.concat (runs_from current lines) = current ++ lines.
Proof.
  induction lines as [|line rest IH]; intros current; cbn [runs_from].
  - simpl. reflexivity.
  - destruct (startsWithDash line).
    + cbn [List.concat]. now rewrite IH.
    + rewrite IH. now rewrite <- app_assoc.
Qed.

Lemma runs_from_nonempty (lines : list Transcript) :
  forall current, current <> [] ->
    Forall (fun run => run <> []) (runs_from current lines).
Proof.
  induction lines as [|line rest IH]; intros current Hc; cbn [runs_from].
  - now constructor.
  - destruct (startsWithDash line).
    + constructor; [assumption | apply IH; discriminate].
    + apply IH. destruct current; [congruence | discriminate].
Qed.

(** A line with the marker closes the group being filled, whatever came
    before it. *)
Lemma runs_from_split (before : list Transcript) (line : Transcript)
  (after : list Transcript) :
  startsWithDash line = true ->
  forall current,
    runs_from current (before ++ line :: after)
    = runs_from current before ++ runs_from [line] after.
Proof.
  intros Hd. induction before as [|x before IH]; intros current.
  - cbn [app runs_from]. now rewrite Hd.
  - cbn [app runs_from]. destruct (startsWithDash x).
    + now rewrite IH.
    + apply IH.
Qed.

Lemma runs_from_head (lines : list Transcript) :
  forall current, exists more runs,
    runs_from current lines = (current ++ more) :: runs /\
    (more = [] \/
     exists next rest, lines = next :: rest /\ startsWithDash next = false).
Proof.
  induction lines as [|line rest IH]; intros current; cbn [runs_from].
  - exists [], []. rewrite app_nil_r. auto.
  - destruct (startsWithDash line) eqn:E.
    + exists [], (runs_from [line] rest). rewrite app_nil_r. auto.
    + destruct (IH (current ++ [line])) as [more [runs [-> _]]].
      exists (line :: more), runs. rewrite <- app_assoc.
      split; [reflexivity | right; exists line, rest; auto].
Qed.

(** No line inside a run has the marker, and every run after the first
    begins with a line that has it. *)
Lemma runs_from_markers (lines : list Transcript) :
  forall current, current <> [] ->
    Forall (fun l => startsWithDash l = false) (tl current) ->
    Forall (fun run => Forall (fun l => startsWithDash l = false) (tl run))
      (runs_from current lines) /\
    Forall (fun run => option_map startsWithDash (hd_error run) = Some true)
      (tl (runs_from current lines)).
Proof.
  induction lines as [|line rest IH]; intros current Hc Hin; cbn [runs_from].
  - split; [now constructor | constructor].
  - destruct (startsWithDash line) eqn:E.
    + destruct (IH [line] ltac:(discriminate) ltac:(constructor)) as [H1 H2].
      split; [now constructor|]. cbn [tl].
      destruct (runs_from_head rest [line]) as [more [runs [Hr _]]].
      rewrite Hr in *. constructor; [cbn; now rewrite E | exact H2].
    + apply IH.
      * destruct current; [congruence | discriminate].
      * destruct current as [|c cs]; [congruence|]. cbn [app tl] in *.
        apply Forall_app. split; [assumption | now constructor].
Qed.

(** The [reduce] over a group: the texts joined by spaces onto the first
    line, whose offset stays. *)
Lemma reduce_from_merge (rest : list Transcript) :
  forall index txt off,
    JS.reduce_from merge_item (S index) rest (mkSegment (Some txt) (Some off))
    = mkSegment (Some (fold_left (fun a item => a +++ " " +++ text item) rest txt))
        (Some off).
Proof.
  induction rest as [|item rest IH]; intros index txt off; [reflexivity|].
  cbn [JS.reduce_from fold_left]. unfold merge_item at 2.
  cbn [Nat.eqb seg_text seg_offset JS.show]. apply IH.
Qed.

Lemma fold_texts_join (rest : list Transcript) :
  forall txt,
    fold_left (fun a item => a +++ " " +++ text item) rest txt
    = JS.join " " (txt :: map text rest).
Proof.
  induction rest as [|item rest IH]; intros txt; [reflexivity|].
  cbn [fold_left map]. rewrite IH.
  destruct rest as [|item' rest]; [reflexivity|].
  cbn [map]. rewrite !join_cons. now rewrite !append_assoc.
Qed.

Lemma reduce_run (line : Transcript) (rest : list Transcript) :
  JS.reduce merge_item (line :: rest) empty_object
  = segment_spec (line :: rest).
Proof.
  unfold JS.reduce. cbn [JS.reduce_from]. unfold merge_item at 2.
  cbn [Nat.eqb]. unfold spread. rewrite reduce_from_merge, fold_texts_join.
  reflexivity.
Qed.

Lemma groupBySentences_runs (lines : list Transcript) :
  groupBySentences lines = map segment_spec (groupedTranscripts lines).
Proof.
  unfold groupBySentences. apply map_ext_in. intros run Hin.
  destruct lines as [|line rest]; [contradiction|].
  rewrite groupedTranscripts_cons in Hin.
  pose proof (runs_from_nonempty rest [line] ltac:(discriminate)) as Hne.
  rewrite Forall_forall in Hne. specialize (Hne run Hin).
  destruct run; [congruence | apply reduce_run].
Qed.

(** The spec's scan, started on a group already holding [current]. *)
Lemma scan_spec_runs (lines : list Transcript) :
  forall first others,
    map segment_spec (runs_from (first :: others) lines)
    = map (fun group => mkSegment (Some (fst group)) (Some (snd group)))
        (scan_spec (Some (JS.join " " (map text (first :: others)), offset first))
           lines).
Proof.
  induction lines as [|line rest IH]; intros first others.
  - reflexivity.
  - cbn [runs_from scan_spec]. destruct (startsWithDash line).
    + cbn [map]. f_equal. apply (IH line []).
    + change ((first :: others) ++ [line]) with (first :: (others ++ [line])).
      rewrite IH. do 3 f_equal. cbn [map].
      rewrite <- !fold_texts_join, fold_left_app. reflexivity.
Qed.

Lemma groupBySentences_refines (lines : list Transcript) :
  groupBySentences lines = groupBySentences_spec lines.
Proof.
  rewrite groupBySentences_runs. destruct lines as [|line rest]; [reflexivity|].
  rewrite groupedTranscripts_cons. unfold groupBySentences_spec.
  cbn [scan_spec]. apply (scan_spec_runs rest line []).
Qed.

(** C3.  For every sequence of transcript lines [groupBySentences] is the
    scan of the specification: the lines are taken in order; a line whose
    trimmed text begins with a dash starts a new group exactly when a group
    is being filled, so that the first line only ever opens the first
    group; any other line is appended to the group with a space, the
    group keeping the offset of its first line; the last group is flushed
    at the end; and no line gives no segment. *)
Theorem C3_groupBySentences_follows_the_rule :
  (forall lines, groupBySentences lines = groupBySentences_spec lines) /\
  groupBySentences [] = [].
Proof.
  split; [exact groupBySentences_refines | reflexivity].
Qed.

(** C4.  The segments of [groupBySentences] partition the lines without
    reordering them: the lines split into consecutive non-empty runs, one
    per segment, each segment being the merge of its run, so that every
    line goes to exactly one segment; a line with the marker is never
    inside a run, and every run but the first begins with one; and the
    segment texts joined in order spell the line texts joined in order,
    dash markers included. *)
Theorem C4_groupBySentences_partitions (lines : list Transcript) :
  exists runs : list (list Transcript),
    List.concat runs = lines /\
    Forall (fun run => run <> []) runs /\
    Forall (fun run => Forall (fun l => startsWithDash l = false) (tl run)) runs /\
    Forall (fun run => option_map startsWithDash (hd_error run) = Some true)
      (tl runs) /\
    groupBySentences lines = map segment_spec runs /\
    JS.join " " (map (fun s => JS.show (seg_text s)) (groupBySentences lines))
    = JS.join " " (map text lines).
Proof.
  exists (groupedTranscripts lines).
  assert (Hc : List.concat (groupedTranscripts lines) = lines).
  { destruct lines as [|line rest]; [reflexivity|].
    rewrite groupedTranscripts_cons. apply runs_from_concat. }
  assert (Hne : Forall (fun run => run <> []) (groupedTranscripts lines)).
  { destruct lines as [|line rest]; [constructor|].
    rewrite groupedTranscripts_cons. apply runs_from_nonempty. discriminate. }
  split; [assumption|]. split; [assumption|].
  split; [|split; [|split]].
  - destruct lines as [|line rest]; [constructor|].
    rewrite groupedTranscripts_cons.
    now apply runs_from_markers; [discriminate | constructor].
  - destruct lines as [|line rest]; [constructor|].
    rewrite groupedTranscripts_cons.
    now apply runs_from_markers; [discriminate | constructor].
  - apply groupBySentences_runs.
  - rewrite groupBySentences_runs, map_map. cbn [segment_spec seg_text JS.show].
    rewrite <- Hc at 2. rewrite concat_map, <- join_concat.
    + now rewrite map_map.
    + rewrite Forall_forall in *. intros r Hr. apply in_map_iff in Hr.
      destruct Hr as [run [<- Hrun]]. specialize (Hne run Hrun).
      destruct run; [congruence | discriminate].
Qed.

(** ** Text assembly *)

Lemma format_segment_spec (group : string * Z) :
  format_segment (mkSegment (Some (fst group)) (Some (snd group)))
  = format_spec group.
Proof.
  unfold format_segment, format_spec, format_offset. cbn.
  now rewrite !append_assoc.
Qed.

Lemma assemble_spec (lines : list Transcript) :
  assemble lines = JS.join JS.newline (map format_spec (scan_spec None lines)).
Proof.
  unfold assemble. rewrite groupBySentences_refines.
  unfold groupBySentences_spec. rewrite map_map. f_equal.
  apply map_ext. intros group. apply format_segment_spec.
Qed.

(** C5.  The assembled text is the newline-joined list of the grouped
    segments, each written as an opening bracket, the offset in seconds,
    [s], a closing bracket, a space and the text; the seconds are the
    milliseconds divided by 1000 and rounded up; and the three lines of the
    specification's example give the two segments and the string it
    states. *)
Theorem C5_assembled_text_format :
  (forall lines,
     assemble lines
     = JS.join JS.newline (map format_spec (scan_spec None lines))) /\
  (forall ms : Z,
     1000 * (JS.ceil_div ms 1000 - 1) < ms <= 1000 * JS.ceil_div ms 1000) /\
  groupBySentences
    [mkTranscript "- Intro" 0; mkTranscript "more" 1200;
     mkTranscript "- Next part" 5000]
  = [mkSegment (Some "- Intro more") (Some 0);
     mkSegment (Some "- Next part") (Some 5000)] /\
  assemble
    [mkTranscript "- Intro" 0; mkTranscript "more" 1200;
     mkTranscript "- Next part" 5000]
  = "[0s] Intro more" +++ JS.newline +++ "[5s] Next part".
Proof.
  split; [exact assemble_spec|].
  split; [exact ceil_div_1000|].
  split; vm_compute; reflexivity.
Qed.

Lemma join_head (sep x : string) (l : list string) :
  exists rest, JS.join sep (x :: l) = x +++ rest.
Proof.
  destruct l as [|y l].
  - exists "". cbn. now rewrite append_nil_r.
  - exists (sep +++ JS.join sep (y :: l)). apply join_cons.
Qed.

Lemma startsWithDash_nonempty (line : Transcript) :
  startsWithDash line = true -> text line <> "".
Proof.
  unfold startsWithDash. intros H E. rewrite E in H. discriminate.
Qed.

Lemma startsWith_dash_space_append (s tail : string) :
  s <> "" -> s <> "-" -> JS.startsWith s "- " = false ->
  JS.startsWith (s +++ tail) "- " = false.
Proof.
  unfold JS.startsWith. intros H0 H1 H.
  destruct s as [|c1 [|c2 s]]; [congruence | |].
  - cbn [String.append String.prefix].
    destruct (ascii_dec "-" c1) as [<-|n]; [congruence | reflexivity].
  - revert H. cbn [String.append String.prefix].
    destruct (ascii_dec "-" c1); [|reflexivity].
    destruct (ascii_dec " " c2); [|reflexivity].
    destruct s; discriminate.
Qed.

(** A line with the marker that is not the first one begins a group of its
    own, and a line of the assembled text. *)
Lemma groupBySentences_split (before : list Transcript) (line : Transcript)
  (after : list Transcript) :
  before <> [] -> startsWithDash line = true ->
  groupBySentences (before ++ line :: after)
  = groupBySentences before ++ groupBySentences (line :: after).
Proof.
  intros Hb Hd. rewrite !groupBySentences_runs, <- map_app. f_equal.
  destruct before as [|first before]; [congruence|].
  change ((first :: before) ++ line :: after)
    with (first :: (before ++ line :: after)).
  rewrite !groupedTranscripts_cons. now apply runs_from_split.
Qed.

Lemma groupBySentences_nonempty (line : Transcript) (rest : list Transcript) :
  groupBySentences (line :: rest) <> [].
Proof.
  rewrite groupBySentences_runs, groupedTranscripts_cons.
  destruct (runs_from_head rest [line]) as [more [runs [-> _]]]. discriminate.
Qed.

Lemma assemble_split (before : list Transcript) (line : Transcript)
  (after : list Transcript) :
  before <> [] -> startsWithDash line = true ->
  assemble (before ++ line :: after)
  = assemble before +++ JS.newline +++ assemble (line :: after).
Proof.
  intros Hb Hd. unfold assemble.
  rewrite groupBySentences_split, map_app by assumption.
  apply join_app.
  - destruct before as [|first before]; [congruence|].
    pose proof (groupBySentences_nonempty first before).
    destruct (groupBySentences (first :: before)); [congruence | discriminate].
  - pose proof (groupBySentences_nonempty line after).
    destruct (groupBySentences (line :: after)); [congruence | discriminate].
Qed.

(** The first line of the assembled text, when the merged text of the first
    group does not begin with a dash and a space. *)
Lemma assemble_keeps_text (line : Transcript) (after : list Transcript) :
  startsWithDash line = true ->
  JS.startsWith (text line) "- " = false ->
  (text line = "-" ->
   match after with
   | [] => True
   | next :: _ => startsWithDash next = true
   end) ->
  exists rest,
    assemble (line :: after)
    = "[" +++ JS.Z_to_string (JS.ceil_div (offset line) 1000) +++ "s] "
      +++ text line +++ rest.
Proof.
  intros Hd Hp Hlone. unfold assemble.
  rewrite groupBySentences_runs, groupedTranscripts_cons.
  destruct (runs_from_head after [line]) as [more [runs [-> Hmore]]].
  cbn [app map].
  destruct (join_head JS.newline (format_segment (segment_spec (line :: more)))
              (map format_segment (map segment_spec runs))) as [rest ->].
  destruct (join_head " " (text line) (map text more)) as [tail Htail].
  assert (Hkeep : JS.replace_leading_dash (text line +++ tail) = text line +++ tail).
  { apply replace_leading_dash_spec.
    destruct Hmore as [-> | [next [rest' [-> Hnext]]]].
    - cbn in Htail. rewrite <- Htail. exact Hp.
    - apply startsWith_dash_space_append; try assumption.
      + now apply startsWithDash_nonempty.
      + intros E. specialize (Hlone E). cbn in Hlone. congruence. }
  exists (tail +++ rest).
  unfold format_segment, segment_spec, format_offset.
  cbn [seg_text seg_offset option_map hd_error JS.show map].
  rewrite Htail, Hkeep. now rewrite !append_assoc.
Qed.

(** C10, as amended.  Formatting strips nothing but a leading dash followed
    by a space from the merged text of a segment.  A line whose trimmed text
    begins with a dash while its raw text does not begin with a dash and a
    space still starts a new group when it is not the first line, and its
    raw text, dash included, stands in the assembled text right after the
    bracketed offset, unless the raw text is the lone dash and another line
    was appended to it in its group. *)
Theorem C10_only_dash_space_is_stripped (line : Transcript)
  (after : list Transcript) :
  startsWithDash line = true ->
  JS.startsWith (text line) "- " = false ->
  (text line = "-" ->
   match after with
   | [] => True
   | next :: _ => startsWithDash next = true
   end) ->
  (forall s, JS.replace_leading_dash ("- " +++ s) = s) /\
  (forall s, JS.startsWith s "- " = false -> JS.replace_leading_dash s = s) /\
  (forall before, before <> [] ->
     groupBySentences (before ++ line :: after)
     = groupBySentences before ++ groupBySentences (line :: after) /\
     assemble (before ++ line :: after)
     = assemble before +++ JS.newline +++ assemble (line :: after)) /\
  exists rest,
    assemble (line :: after)
    = "[" +++ JS.Z_to_string (JS.ceil_div (offset line) 1000) +++ "s] "
      +++ text line +++ rest.
Proof.
  intros Hd Hp Hlone.
  split; [reflexivity|].
  split; [intros s; apply replace_leading_dash_spec|].
  split.
  - intros before Hb. split;
      [now apply groupBySentences_split | now apply assemble_split].
  - now apply assemble_keeps_text.
Qed.

Lemma C10_witness :
  startsWithDash (mkTranscript "  - Intro" 1200) = true /\
  JS.startsWith "  - Intro" "- " = false /\
  groupBySentences
    [mkTranscript "Hello" 0; mkTranscript "  - Intro" 1200;
     mkTranscript "more" 2000]
  = groupBySentences [mkTranscript "Hello" 0]
    ++ groupBySentences [mkTranscript "  - Intro" 1200; mkTranscript "more" 2000] /\
  exists rest,
    assemble [mkTranscript "  - Intro" 1200; mkTranscript "more" 2000]
    = "[2s]   - Intro" +++ rest.
Proof.
  pose proof (C10_only_dash_space_is_stripped
                (mkTranscript "  - Intro" 1200) [mkTranscript "more" 2000]
                eq_refl eq_refl
                (fun E : "  - Intro" = "-" => ltac:(discriminate E)))
    as [_ [_ [Hsplit Hkeep]]].
  split; [reflexivity|]. split; [reflexivity|]. split.
  - exact (proj1 (Hsplit [mkTranscript "Hello" 0] ltac:(discriminate))).
  - exact Hkeep.
Defined.

(** C10 as it was stated fails on the lone dash: the group of ["-"] and
    ["more"] merges to a text that begins with a dash and a space, which
    formatting strips, so the marker of the line is gone from the assembled
    text although the raw text of the line did not begin with a dash and a
    space. *)
Lemma C10_counterexample :
  ~ (forall (line : Transcript) (after : list Transcript),
       startsWithDash line = true ->
       JS.startsWith (text line) "- " = false ->
       exists rest,
         assemble (line :: after)
         = "[" +++ JS.Z_to_string (JS.ceil_div (offset line) 1000) +++ "s] "
           +++ text line +++ rest).
Proof.
  intros H.
  destruct (H (mkTranscript "-" 0) [mkTranscript "more" 1200] eq_refl eq_refl)
    as [rest E].
  vm_compute in E. discriminate E.
Qed.

(** ** The handler *)

(** Whatever the url, the metadata of the video is fetched before the
    identifier is looked at. *)
Lemma unparseable_url_outcome (sv : Services) (req : AppNextApiRequest)
  (w : World) (url : string) :
  YoutubeSummarySchema_parse sv (body req) = inr url ->
  truthy (extractVideoId sv url) = None ->
  let o := createYoutubeSummary sv req w in
  calls o = [GetVideoSnippetById (extractVideoId sv url)] /\
  world o = w /\
  (result o = inl (Error "The url is not a valid youtube video.") \/
   exists e, getVideoSnippetById sv (extractVideoId sv url) = inl e /\
             result o = inl e).
Proof.
  intros Hp Ht. run_handler; try congruence;
    inversion Hp; subst; try congruence; eauto 6.
Qed.

(** C1, at a failing input.  The body url [https://example.com/] holds no
    video identifier; the request ends in the validation error and leaves
    the store alone, but only after the metadata service was called with no
    identifier, and when that service rejects, its rejection is what the
    caller gets. *)
Theorem C1_unparseable_url_calls_metadata_service :
  let req := Sample.request "https://example.com/" in
  let o := createYoutubeSummary Sample.services req Sample.cached_world in
  let o' := createYoutubeSummary Sample.services_snippet_down req Sample.cached_world in
  extractVideoId Sample.services "https://example.com/" = None /\
  calls o = [GetVideoSnippetById None] /\
  result o = inl (Error "The url is not a valid youtube video.") /\
  world o = Sample.cached_world /\
  calls o' = [GetVideoSnippetById None] /\
  result o' = inl (Rejected "quotaExceeded") /\
  world o' = Sample.cached_world.
Proof.
  vm_compute. repeat split; reflexivity.
Qed.

(** What a request for a video that has a Summary Record does when it
    carries no privileged refresh.  The metadata fetch comes first, before
    the lookup; the summarization call is never issued and nothing is
    written; when the fetch answers, the lookup follows and the stored
    record is returned as it is, and a second such request does the same;
    when the fetch rejects, it was the only call and its rejection is the
    outcome. *)
Lemma cached_request_outcome (sv : Services) (req : AppNextApiRequest)
  (w : World) (url videoId : string) (record : LLMTaskOutput) :
  YoutubeSummarySchema_parse sv (body req) = inr url ->
  truthy (extractVideoId sv url) = Some videoId ->
  find (has_key youtube_summary videoId) (lLMTaskOutput w) = Some record ->
  refresh_requested req = false ->
  let o := createYoutubeSummary sv req w in
  world o = w /\ no_model_call (calls o) /\ no_upsert (calls o) /\
  (forall snippet,
     getVideoSnippetById sv (extractVideoId sv url) = inr snippet ->
     o = mkOutcome (inr record) w
           [GetVideoSnippetById (extractVideoId sv url);
            FindUnique youtube_summary videoId] /\
     forall (sv' : Services) (req' : AppNextApiRequest) snippet',
       YoutubeSummarySchema_parse sv' (body req') = inr url ->
       extractVideoId sv' url = extractVideoId sv url ->
       getVideoSnippetById sv' (extractVideoId sv' url) = inr snippet' ->
       refresh_requested req' = false ->
       createYoutubeSummary sv' req' (world o)
       = mkOutcome (inr record) w
           [GetVideoSnippetById (extractVideoId sv' url);
            FindUnique youtube_summary videoId]) /\
  (forall e,
     getVideoSnippetById sv (extractVideoId sv url) = inl e ->
     o = mkOutcome (inl e) w [GetVideoSnippetById (extractVideoId sv url)]).
Proof.
  intros Hp Ht Hf Hr.
  assert (One : forall sv0 req0,
             YoutubeSummarySchema_parse sv0 (body req0) = inr url ->
             truthy (extractVideoId sv0 url) = Some videoId ->
             refresh_requested req0 = false ->
             let o := createYoutubeSummary sv0 req0 w in
             world o = w /\ no_model_call (calls o) /\ no_upsert (calls o) /\
             (forall snippet,
                getVideoSnippetById sv0 (extractVideoId sv0 url) = inr snippet ->
                o = mkOutcome (inr record) w
                      [GetVideoSnippetById (extractVideoId sv0 url);
                       FindUnique youtube_summary videoId]) /\
             (forall e,
                getVideoSnippetById sv0 (extractVideoId sv0 url) = inl e ->
                o = mkOutcome (inl e) w
                      [GetVideoSnippetById (extractVideoId sv0 url)])).
  { clear sv req Hp Ht Hr. intros sv req Hp Ht Hr.
    run_handler; inversion Hp; subst; try congruence;
      repeat split; trace_solve. }
  destruct (One sv req Hp Ht Hr) as [Hw [Hm [Hu [Hres Hfail]]]].
  cbv zeta. do 3 (split; [assumption|]). split; [|exact Hfail].
  intros snippet Hs. split; [exact (Hres snippet Hs)|].
  intros sv' req' snippet' Hp' He' Hs' Hr'. rewrite Hw.
  assert (Ht' : truthy (extractVideoId sv' url) = Some videoId) by congruence.
  destruct (One sv' req' Hp' Ht' Hr') as [_ [_ [_ [Hres' _]]]].
  exact (Hres' snippet' Hs').
Qed.

(** C2, at a failing input.  The video [abc] has a Summary Record and the
    request carries no refresh.  With the metadata service up, the request
    fetches the metadata, looks the record up and returns it unchanged,
    twice over, without a summarization call.  With the metadata service
    down, the request fails with the rejection of that service after that
    one call: the stored record is never looked up, let alone returned. *)
Theorem C2_cached_record_not_returned_when_metadata_fails :
  let req := Sample.request "v=abc" in
  let ok := createYoutubeSummary Sample.services req Sample.cached_world in
  let again := createYoutubeSummary Sample.services req (world ok) in
  let down := createYoutubeSummary Sample.services_snippet_down req
                Sample.cached_world in
  extractVideoId Sample.services "v=abc" = Some "abc" /\
  find (has_key youtube_summary "abc") (lLMTaskOutput Sample.cached_world)
  = Some Sample.stored /\
  refresh_requested req = false /\
  ok = mkOutcome (inr Sample.stored) Sample.cached_world
         [GetVideoSnippetById (Some "abc"); FindUnique youtube_summary "abc"] /\
  again = ok /\
  down = mkOutcome (inl (Rejected "quotaExceeded")) Sample.cached_world
           [GetVideoSnippetById (Some "abc")].
Proof.
  vm_compute. repeat split; reflexivity.
Qed.

(** The universal reading of the claim, that such a request always returns
    the stored record, does not hold of the handler. *)
Lemma cached_record_not_always_returned :
  ~ (forall (sv : Services) (req : AppNextApiRequest) (w : World)
       (url videoId : string) (record : LLMTaskOutput),
       YoutubeSummarySchema_parse sv (body req) = inr url ->
       truthy (extractVideoId sv url) = Some videoId ->
       find (has_key youtube_summary videoId) (lLMTaskOutput w) = Some record ->
       refresh_requested req = false ->
       result (createYoutubeSummary sv req w) = inr record).
Proof.
  intros H.
  specialize (H Sample.services_snippet_down (Sample.request "v=abc")
                Sample.cached_world "v=abc" "abc" Sample.stored
                eq_refl eq_refl eq_refl eq_refl).
  vm_compute in H. discriminate H.
Qed.

(** C7.  When the arguments of the model's tool call do not parse, the
    parse error is what the request fails with and no Summary Record is
    written; on every failure of the request the table of Summary Records
    is what it was; and an upsert, when there is one, is the last call of
    the request and the only upsert. *)
Theorem C7_failures_leave_the_store_alone (sv : Services)
  (req : AppNextApiRequest) (w : World) :
  let o := createYoutubeSummary sv req w in
  (forall content completion e,
     In (ModelCall content) (calls o) ->
     model_call sv content = inr completion ->
     zodParseJSON sv (arguments completion) = inl e ->
     result o = inl e /\
     lLMTaskOutput (world o) = lLMTaskOutput w /\
     no_upsert (calls o)) /\
  (forall e, result o = inl e -> lLMTaskOutput (world o) = lLMTaskOutput w) /\
  (forall payload,
     In (Upsert payload) (calls o) ->
     exists before, calls o = before ++ [Upsert payload] /\ no_upsert before).
Proof.
  cbv zeta. split; [|split].
  - intros content completion e Hin Hm Hz.
    run_handler; repeat split; trace_solve.
  - intros e He. run_handler; trace_solve.
  - intros payload Hin.
    run_handler; cbn [In] in Hin;
      repeat match goal with
        | H : _ \/ _ |- _ => destruct H; try discriminate
        | H : False |- _ => destruct H
        | H : Upsert _ = Upsert _ |- _ => injection H as <-
        end;
      (eexists [_; _; _; _; _]; split; [reflexivity | trace_solve]).
Qed.

Lemma C7_witness :
  let o := createYoutubeSummary Sample.services_malformed
             (Sample.request "v=abc") Sample.empty_world in
  result o = inl (ZodError "Required") /\
  lLMTaskOutput (world o) = [] /\
  no_upsert (calls o).
Proof.
  refine (proj1 (C7_failures_leave_the_store_alone Sample.services_malformed
                   (Sample.request "v=abc") Sample.empty_world)
            "Youtube video transcript: [0s] Intro mor"
            (mkCompletion None "usage") (ZodError "Required") _ eq_refl eq_refl).
  vm_compute. tauto.
Defined.

(** ** The store *)

Lemma find_has_key (type_ externalId_ : string) (table : list LLMTaskOutput)
  (found : LLMTaskOutput) :
  find (has_key type_ externalId_) table = Some found ->
  In found table /\ type found = type_ /\ externalId found = externalId_.
Proof.
  intros H. apply find_some in H. destruct H as [Hin Hk].
  unfold has_key in Hk. apply andb_prop in Hk. destruct Hk as [Ht He].
  apply String.eqb_eq in Ht, He. auto.
Qed.

Lemma existsb_has_id (table : list LLMTaskOutput) (row : LLMTaskOutput) :
  In row table -> existsb (has_id (id row)) table = true.
Proof.
  intros Hin. apply existsb_exists. exists row. split; [assumption|].
  unfold has_id. apply String.eqb_refl.
Qed.

Lemma existsb_has_id_fresh (table : list LLMTaskOutput) (id_ : string) :
  (forall r, In r table -> id r <> id_) -> existsb (has_id id_) table = false.
Proof.
  intros Hfresh. apply not_true_is_false. intros H.
  apply existsb_exists in H. destruct H as [r [Hin Hid]].
  unfold has_id in Hid. apply String.eqb_eq in Hid. exact (Hfresh r Hin Hid).
Qed.

(** After the replacement the payload is the row of its id. *)
Lemma find_replace_row (payload : LLMTaskOutput) (table : list LLMTaskOutput) :
  existsb (has_id (id payload)) table = true ->
  find (has_id (id payload)) (replace_row payload table) = Some payload.
Proof.
  induction table as [|r table IH]; [discriminate|].
  cbn [existsb replace_row map find].
  destruct (has_id (id payload) r) eqn:E.
  - intros _. unfold has_id at 1. now rewrite String.eqb_refl.
  - rewrite E. exact IH.
Qed.

(** The rows of another id stay as they are. *)
Lemma replace_row_frame (payload row : LLMTaskOutput) (table : list LLMTaskOutput) :
  In row table -> id row <> id payload -> In row (replace_row payload table).
Proof.
  intros Hin Hid. unfold replace_row. apply in_map_iff. exists row.
  split; [|assumption]. unfold has_id.
  destruct (String.eqb_spec (id row) (id payload)); [contradiction | reflexivity].
Qed.

Lemma choose_id_found (sv : Services) (found : LLMTaskOutput) :
  id found <> "" -> choose_id sv (Some found) = id found.
Proof.
  intros H. unfold choose_id.
  destruct (String.eqb_spec (id found) ""); [contradiction | reflexivity].
Qed.

(** What a request that reaches the upsert has done, and what the upsert
    does. *)
Lemma write_path (sv : Services) (req : AppNextApiRequest) (w : World)
  (payload : LLMTaskOutput) :
  In (Upsert payload) (calls (createYoutubeSummary sv req w)) ->
  exists url snippet videoId content completion data,
    YoutubeSummarySchema_parse sv (body req) = inr url /\
    truthy (extractVideoId sv url) = Some videoId /\
    getVideoSnippetById sv (extractVideoId sv url) = inr snippet /\
    model_call sv content = inr completion /\
    zodParseJSON sv (arguments completion) = inr data /\
    (find (has_key youtube_summary videoId) (lLMTaskOutput w) = None \/
     refresh_requested req = true) /\
    payload
    = mkLLMTaskOutput
        (choose_id sv (find (has_key youtube_summary videoId) (lLMTaskOutput w)))
        videoId "youtube_summary" (mkOutput snippet data)
        (completion_usage completion) /\
    ((result (createYoutubeSummary sv req w) = inl UniqueConstraintFailed /\
      lLMTaskOutput (world (createYoutubeSummary sv req w)) = lLMTaskOutput w) \/
     (result (createYoutubeSummary sv req w) = inr payload /\
      lLMTaskOutput (world (createYoutubeSummary sv req w))
      = if existsb (has_id (id payload)) (lLMTaskOutput w)
        then replace_row payload (lLMTaskOutput w)
        else lLMTaskOutput w ++ [payload])).
Proof.
  intros Hin.
  run_handler; cbn [In] in Hin;
    repeat match goal with
      | H : _ \/ _ |- _ => destruct H; try discriminate
      | H : False |- _ => destruct H
      | H : Upsert ?p = Upsert payload |- _ =>
          assert (payload = p) by congruence; clear H; subst payload
      end;
    do 6 eexists;
    (split; [reflexivity|]);
    do 4 (split; [eassumption|]);
    (split; [first [left; assumption | right; reflexivity]|]);
    (split; [match goal with H : find _ _ = _ |- _ => rewrite H end;
             reflexivity|]);
    first [left; split; reflexivity | right; split; reflexivity | congruence].
Qed.

(** Ids stay non-empty as long as the minted ones are: the condition under
    which [found?.id || cuid()] is the id of the record found. *)
Lemma nonempty_ids_preserved (sv : Services) (req : AppNextApiRequest)
  (w : World) :
  cuid sv <> "" ->
  Forall (fun r => id r <> "") (lLMTaskOutput w) ->
  Forall (fun r => id r <> "")
    (lLMTaskOutput (world (createYoutubeSummary sv req w))).
Proof.
  intros Hcuid Hwf.
  assert (Hchoose : forall found,
             find (has_key youtube_summary (externalId found)) (lLMTaskOutput w)
             = Some found -> choose_id sv (Some found) <> "").
  { intros found Hf.
    assert (id found <> "").
    { rewrite Forall_forall in Hwf. apply Hwf.
      now apply (find_has_key _ _ _ _ Hf). }
    now rewrite choose_id_found. }
  assert (Hpay : forall found videoId out us,
             find (has_key youtube_summary videoId) (lLMTaskOutput w) = found ->
             id (mkLLMTaskOutput (choose_id sv found) videoId "youtube_summary"
                   out us) <> "").
  { intros [found|] videoId out us Hf; cbn [id choose_id]; [|assumption].
    destruct (find_has_key _ _ _ _ Hf) as (_ & _ & <-).
    now apply Hchoose. }
  run_handler; try assumption.
  all: try (apply Forall_app; split; [assumption|]; constructor; [|constructor]).
  all: try (unfold replace_row; apply Forall_map; rewrite Forall_forall in *;
            intros r Hr; destruct (has_id _ r); [|now apply Hwf]).
  all: now apply Hpay.
Qed.

(** C8.  On a store whose records have non-empty ids, a request that writes
    returns the payload it upserted.  When the lookup had found a record,
    which takes the privileged refresh, the payload carries that record's
    id, external id and type, and takes its place in the table: the output
    and usage are the fresh ones, built from the metadata and the parsed
    summary of this request, nothing of the prior output being kept.  When
    the lookup had found none, the id is the newly minted one, and if it is
    indeed new the payload is added as a new record.  Records of another id
    stay as they were. *)
Theorem C8_upsert_reuses_or_mints_the_id (sv : Services)
  (req : AppNextApiRequest) (w : World) (payload out : LLMTaskOutput) :
  Forall (fun r => id r <> "") (lLMTaskOutput w) ->
  In (Upsert payload) (calls (createYoutubeSummary sv req w)) ->
  result (createYoutubeSummary sv req w) = inr out ->
  let table := lLMTaskOutput w in
  let table' := lLMTaskOutput (world (createYoutubeSummary sv req w)) in
  out = payload /\
  type payload = youtube_summary /\
  (exists url snippet content completion data,
     YoutubeSummarySchema_parse sv (body req) = inr url /\
     truthy (extractVideoId sv url) = Some (externalId payload) /\
     getVideoSnippetById sv (extractVideoId sv url) = inr snippet /\
     model_call sv content = inr completion /\
     zodParseJSON sv (arguments completion) = inr data /\
     output payload = mkOutput snippet data /\
     usage payload = completion_usage completion) /\
  (forall found,
     find (has_key youtube_summary (externalId payload)) table = Some found ->
     refresh_requested req = true /\
     id payload = id found /\
     externalId payload = externalId found /\
     type payload = type found /\
     table' = replace_row payload table /\
     find (has_id (id found)) table' = Some payload) /\
  (find (has_key youtube_summary (externalId payload)) table = None ->
   id payload = cuid sv /\
   ((forall r, In r table -> id r <> cuid sv) -> table' = table ++ [payload])) /\
  (forall r, In r table -> id r <> id payload -> In r table').
Proof.
  intros Hwf Hin Hres. cbv zeta.
  destruct (write_path sv req w payload Hin)
    as (url & snippet & videoId & content & completion & data
        & Hp & Ht & Hs & Hm & Hz & Hwhy & Hpay & Hup).
  destruct Hup as [[Hfail _] | [Hok Htable]]; [congruence|].
  assert (He : externalId payload = videoId) by (rewrite Hpay; reflexivity).
  assert (Hty : type payload = youtube_summary) by (rewrite Hpay; reflexivity).
  rewrite He.
  split; [congruence|]. split; [assumption|]. split.
  { exists url, snippet, content, completion, data.
    rewrite Hpay. cbn [output usage]. auto 10. }
  split; [|split].
  - intros found Hfound.
    destruct (find_has_key _ _ _ _ Hfound) as (Hinf & Htf & Hef).
    assert (Hid : id payload = id found).
    { rewrite Hpay, Hfound. cbn [id]. apply choose_id_found.
      rewrite Forall_forall in Hwf. now apply Hwf. }
    assert (Hex : existsb (has_id (id payload)) (lLMTaskOutput w) = true).
    { rewrite Hid. now apply existsb_has_id. }
    rewrite Hex in Htable.
    repeat split; try congruence.
    + destruct Hwhy; congruence.
    + rewrite Htable, <- Hid. now apply find_replace_row.
  - intros Hnone. assert (Hid : id payload = cuid sv).
    { rewrite Hpay, Hnone. reflexivity. }
    split; [assumption|]. intros Hfresh.
    rewrite Htable, Hid, existsb_has_id_fresh by assumption. reflexivity.
  - intros r Hr Hne. rewrite Htable.
    destruct (existsb (has_id (id payload)) (lLMTaskOutput w)).
    + now apply replace_row_frame.
    + apply in_or_app. now left.
Qed.

Lemma C8_witness :
  let o := createYoutubeSummary Sample.services (Sample.refresh_request "v=abc")
             Sample.cached_world in
  let fresh := mkLLMTaskOutput "ck9" "abc" "youtube_summary"
                 (mkOutput "snippet" "summary") "usage" in
  result o = inr fresh /\
  lLMTaskOutput (world o) = [fresh] /\
  id fresh = id Sample.stored /\
  externalId fresh = externalId Sample.stored /\
  type fresh = type Sample.stored.
Proof.
  cbv zeta.
  pose (fresh := mkLLMTaskOutput "ck9" "abc" "youtube_summary"
                   (mkOutput "snippet" "summary") "usage").
  assert (Hwf : Forall (fun r => id r <> "") (lLMTaskOutput Sample.cached_world)).
  { repeat constructor. discriminate. }
  assert (Hin : In (Upsert fresh)
                  (calls (createYoutubeSummary Sample.services
                            (Sample.refresh_request "v=abc") Sample.cached_world))).
  { vm_compute. tauto. }
  destruct (C8_upsert_reuses_or_mints_the_id Sample.services
              (Sample.refresh_request "v=abc") Sample.cached_world fresh fresh
              Hwf Hin eq_refl)
    as (_ & _ & _ & Hfound & _ & _).
  destruct (Hfound Sample.stored eq_refl) as (_ & Hid & He & Hty & Htab & _).
  repeat split; try assumption. 
Defined.

(** ** The throttle *)

(** The one summarization call of a request comes right after its pass
    through the throttle. *)
Lemma model_call_follows_throttle (sv : Services) (req : AppNextApiRequest)
  (w : World) (content : string) :
  In (ModelCall content) (calls (createYoutubeSummary sv req w)) ->
  exists before after,
    calls (createYoutubeSummary sv req w)
    = before ++ RateLimit 60 2 :: ModelCall content :: after /\
    no_model_call before /\ no_model_call after.
Proof.
  intros Hin.
  run_handler; cbn [In] in Hin;
    repeat match goal with
      | H : _ \/ _ |- _ => destruct H; try discriminate
      | H : False |- _ => destruct H
      | H : ModelCall ?c = ModelCall content |- _ =>
          assert (content = c) by congruence; clear H; subst content
      end;
    (eexists [_; _; _], _; split; [reflexivity | split; trace_solve]).
Qed.

(** A request that went as far as the summarization call was counted. *)
Lemma model_call_admitted (sv : Services) (req : AppNextApiRequest)
  (w : World) (content : string) :
  In (ModelCall content) (calls (createYoutubeSummary sv req w)) ->
  hits (world (createYoutubeSummary sv req w)) = (ip req, now sv) :: hits w.
Proof.
  intros Hin. run_handler; trace_solve.
Qed.

Lemma throttle_rejects (sv : Services) (req : AppNextApiRequest) (w : World) :
  In (RateLimit 60 2) (calls (createYoutubeSummary sv req w)) ->
  2 <= Z.of_nat (List.length (recent_hits 60 (ip req) (now sv) (hits w))) ->
  result (createYoutubeSummary sv req w) = inl RateLimitExceeded /\
  no_model_call (calls (createYoutubeSummary sv req w)) /\
  world (createYoutubeSummary sv req w) = w.
Proof.
  intros Hin Hfull.
  run_handler;
    try match goal with
      | H : (_ <? _) = true |- _ => apply Z.ltb_lt in H; lia
      end;
    repeat split; trace_solve.
Qed.

(** C6.  The summarization call of a request is immediately preceded by
    its pass through the throttle of 2 requests per 60 seconds; a request
    that comes to the throttle when its caller already has 2 admitted
    requests within the last 60 seconds fails there, without any
    summarization call and without touching the world; so, of three
    requests of one caller within 60 seconds, the first two having gone as
    far as their summarization calls, the third one that comes to the
    throttle is refused and issues no summarization call. *)
Theorem C6_throttle_precedes_the_model_call :
  (forall sv req w content,
     In (ModelCall content) (calls (createYoutubeSummary sv req w)) ->
     exists before after,
       calls (createYoutubeSummary sv req w)
       = before ++ RateLimit 60 2 :: ModelCall content :: after /\
       no_model_call before /\ no_model_call after) /\
  (forall sv req w,
     In (RateLimit 60 2) (calls (createYoutubeSummary sv req w)) ->
     2 <= Z.of_nat (List.length (recent_hits 60 (ip req) (now sv) (hits w))) ->
     result (createYoutubeSummary sv req w) = inl RateLimitExceeded /\
     no_model_call (calls (createYoutubeSummary sv req w)) /\
     world (createYoutubeSummary sv req w) = w) /\
  (forall sv1 sv2 sv3 req1 req2 req3 w content1 content2,
     let o1 := createYoutubeSummary sv1 req1 w in
     let o2 := createYoutubeSummary sv2 req2 (world o1) in
     let o3 := createYoutubeSummary sv3 req3 (world o2) in
     ip req1 = ip req3 -> ip req2 = ip req3 ->
     now sv1 <= now sv2 <= now sv3 -> now sv3 < now sv1 + 60 ->
     In (ModelCall content1) (calls o1) ->
     In (ModelCall content2) (calls o2) ->
     In (RateLimit 60 2) (calls o3) ->
     result o3 = inl RateLimitExceeded /\
     no_model_call (calls o3) /\
     world o3 = world o2).
Proof.
  split; [exact model_call_follows_throttle|].
  split; [exact throttle_rejects|].
  intros sv1 sv2 sv3 req1 req2 req3 w content1 content2 o1 o2 o3
    Hip1 Hip2 Htime Hwindow H1 H2 H3.
  apply throttle_rejects; [exact H3|].
  pose proof (model_call_admitted sv2 req2 (world o1) content2 H2) as E2.
  pose proof (model_call_admitted sv1 req1 w content1 H1) as E1.
  fold o1 in E1, E2. fold o2 in E2. rewrite E2, E1, Hip1, Hip2.
  unfold recent_hits. cbn [filter fst snd].
  rewrite String.eqb_refl. cbn [andb].
  replace (now sv3 - 60 <? now sv2) with true by (symmetry; apply Z.ltb_lt; lia).
  replace (now sv3 - 60 <? now sv1) with true by (symmetry; apply Z.ltb_lt; lia).
  cbn [List.length]. lia.
Qed.

Lemma C6_witness :
  let o1 := createYoutubeSummary (Sample.services_with 100 "ck1")
              (Sample.request "v=abc") Sample.empty_world in
  let o2 := createYoutubeSummary (Sample.services_with 110 "ck2")
              (Sample.request "v=def") (world o1) in
  let o3 := createYoutubeSummary (Sample.services_with 130 "ck3")
              (Sample.request "v=ghi") (world o2) in
  result o3 = inl RateLimitExceeded /\
  no_model_call (calls o3) /\
  world o3 = world o2.
Proof.
  refine (proj2 (proj2 C6_throttle_precedes_the_model_call)
            (Sample.services_with 100 "ck1") (Sample.services_with 110 "ck2")
            (Sample.services_with 130 "ck3")
            (Sample.request "v=abc") (Sample.request "v=def")
            (Sample.request "v=ghi") Sample.empty_world
            "Youtube video transcript: [0s] Intro mor"
            "Youtube video transcript: [0s] Intro mor"
            eq_refl eq_refl _ _ _ _ _).
  - cbn. lia.
  - cbn. lia.
  - vm_compute. tauto.
  - vm_compute. tauto.
  - vm_compute. tauto.
Defined.

(** ** The splitter *)

Lemma chunkSize_nonneg (sv : Services) :
  0 <= maxTokens sv -> (0 <= chunkSize sv)%Q.
Proof.
  intros H. unfold chunkSize. apply Qmult_le_0_compat.
  - change 0%Q with (inject_Z 0). now rewrite <- Zle_Qle.
  - discriminate.
Qed.

(** The first chunk exists, fits the budget, and is the whole text when
    the text fits. *)
Lemma first_chunk (sv : Services) (text_ : string) (budget : Q) :
  (forall ids, List.length (encode sv (decode sv ids)) <= List.length ids)%nat ->
  (0 <= budget)%Q ->
  exists chunk,
    hd_error (splitTextByToken sv text_ budget) = Some chunk /\
    (inject_Z (Z.of_nat (countTokens sv chunk)) <= budget)%Q /\
    (fits sv text_ budget = true ->
     splitTextByToken sv text_ budget = [text_] /\ chunk = text_).
Proof.
  intros Hlaw Hb. unfold splitTextByToken.
  destruct (fits sv text_ budget) eqn:Hfits.
  - exists text_. split; [reflexivity|]. split; [|auto].
    now apply Qle_bool_iff.
  - destruct (encode sv text_) as [|x ids] eqn:Hids.
    + unfold fits, countTokens in Hfits. rewrite Hids in Hfits.
      apply not_true_iff_false in Hfits. exfalso. apply Hfits.
      apply Qle_bool_iff. exact Hb.
    + set (n := Z.to_nat (Qfloor budget)).
      exists (decode sv (firstn n (x :: ids))).
      split; [|split; [|discriminate]].
      * change (slices (List.length (x :: ids)) n (x :: ids))
          with (firstn n (x :: ids)
                :: slices (List.length ids) n (skipn n (x :: ids))).
        reflexivity.
      * apply Qle_trans with (inject_Z (Qfloor budget)); [|apply Qfloor_le].
        rewrite <- Zle_Qle. unfold countTokens.
        pose proof (Hlaw (firstn n (x :: ids))) as H1.
        pose proof (firstn_le_length n (x :: ids)) as H2.
        assert (0 <= Qfloor budget).
        { change 0 with (Qfloor (inject_Z 0)). now apply Qfloor_resp_le. }
        unfold n in *. lia.
Qed.

(** What the summarization call is sent. *)
Lemma model_call_content (sv : Services) (req : AppNextApiRequest) (w : World)
  (content : string) :
  In (ModelCall content) (calls (createYoutubeSummary sv req w)) ->
  exists url transcripts,
    YoutubeSummarySchema_parse sv (body req) = inr url /\
    transcribeVideo sv url = inr transcripts /\
    content
    = user_message
        (hd_error (splitTextByToken sv (assemble transcripts) (chunkSize sv))).
Proof.
  intros Hin.
  run_handler; cbn [In] in Hin;
    repeat match goal with
      | H : _ \/ _ |- _ => destruct H; try discriminate
      | H : False |- _ => destruct H
      | H : ModelCall ?c = ModelCall content |- _ =>
          assert (content = c) by congruence; clear H; subst content
      end;
    eauto.
Qed.

(** C9.  With a tokenizer that never counts more tokens in a decoded slice
    than the slice holds, and a context size that is not negative: the
    transcript sent in the summarization call is the first chunk of the
    split of the assembled text under the budget of 7/10 of the model's
    context size; its token count is within that budget; and when the
    assembled text is itself within the budget, the split is that one chunk
    and the chunk is the assembled text. *)
Theorem C9_first_chunk_within_budget (sv : Services) (req : AppNextApiRequest)
  (w : World) (content : string) :
  (forall ids, List.length (encode sv (decode sv ids)) <= List.length ids)%nat ->
  0 <= maxTokens sv ->
  In (ModelCall content) (calls (createYoutubeSummary sv req w)) ->
  exists url transcripts chunk,
    YoutubeSummarySchema_parse sv (body req) = inr url /\
    transcribeVideo sv url = inr transcripts /\
    hd_error (splitTextByToken sv (assemble transcripts) (chunkSize sv))
    = Some chunk /\
    content = "Youtube video transcript: " +++ chunk /\
    (chunkSize sv == inject_Z (maxTokens sv) * (7 # 10))%Q /\
    (inject_Z (Z.of_nat (countTokens sv chunk)) <= chunkSize sv)%Q /\
    (fits sv (assemble transcripts) (chunkSize sv) = true ->
     splitTextByToken sv (assemble transcripts) (chunkSize sv)
     = [assemble transcripts] /\
     chunk = assemble transcripts).
Proof.
  intros Hlaw Hmax Hin.
  destruct (model_call_content sv req w content Hin)
    as (url & transcripts & Hp & Ht & Hc).
  destruct (first_chunk sv (assemble transcripts) (chunkSize sv) Hlaw
              (chunkSize_nonneg sv Hmax)) as (chunk & Hhd & Hbound & Hfit).
  exists url, transcripts, chunk.
  split; [assumption|]. split; [assumption|]. split; [assumption|].
  split; [rewrite Hc, Hhd; reflexivity|].
  split; [reflexivity|]. split; assumption.
Qed.

Lemma char_tokenizer_law (ids : list positive) :
  (List.length (Sample.char_encode (Sample.char_decode ids)) <= List.length ids)%nat.
Proof.
  unfold Sample.char_encode, Sample.char_decode.
  rewrite list_ascii_of_string_of_list_ascii, !length_map. apply Nat.le_refl.
Qed.

Lemma C9_witness :
  exists chunk,
    hd_error (splitTextByToken Sample.services (assemble Sample.lines)
                (chunkSize Sample.services)) = Some chunk /\
    (inject_Z (Z.of_nat (countTokens Sample.services chunk))
     <= chunkSize Sample.services)%Q.
Proof.
  assert (Hin : In (ModelCall "Youtube video transcript: [0s] Intro mor")
                  (calls (createYoutubeSummary Sample.services
                            (Sample.request "v=abc") Sample.empty_world))).
  { vm_compute. tauto. }
  destruct (C9_first_chunk_within_budget Sample.services
              (Sample.request "v=abc") Sample.empty_world
              "Youtube video transcript: [0s] Intro mor"
              char_tokenizer_law ltac:(cbn; lia) Hin)
    as (url & transcripts & chunk & Hp & Ht & Hhd & _ & _ & Hbound & _).
  cbn in Hp, Ht. injection Hp as <-. injection Ht as <-.
  exists chunk. split; assumption.
Defined.

(** * Further properties *)

(** ** The marker test *)

Lemma trimEnd_head (c : ascii) (s : string) :
  JS.isWhiteSpace c = false -> exists r, JS.trimEnd (String c s) = String c r.
Proof.
  intros Hc. cbn [JS.trimEnd]. destruct (JS.trimEnd s); rewrite ?Hc; eauto.
Qed.

Lemma trimEnd_starts_with_dash (t : string) :
  JS.startsWith (JS.trimEnd t) "-" = true -> exists r, t = String "-" r.
Proof.
  unfold JS.startsWith. destruct t as [|c t]; [discriminate|].
  cbn [JS.trimEnd].
  assert (H : forall r, String.prefix "-" (String c r) = true -> c = "-"%char).
  { intros r. cbn [String.prefix]. destruct (ascii_dec "-" c); [auto | discriminate]. }
  destruct (JS.trimEnd t); [destruct (JS.isWhiteSpace c); [discriminate|]|];
    intros Hp; apply H in Hp; subst c; eauto.
Qed.

Lemma trimStart_decomp (s : string) :
  exists ws, all_whitespace ws = true /\ s = ws +++ JS.trimStart s.
Proof.
  induction s as [|c s [ws [Hws Hs]]].
  - exists "". auto.
  - cbn [JS.trimStart]. destruct (JS.isWhiteSpace c) eqn:Hc.
    + exists (String c ws). cbn [all_whitespace String.append].
      rewrite Hc, Hws, <- Hs. auto.
    + exists "". auto.
Qed.

Lemma trimStart_whitespace_prefix (ws rest : string) :
  all_whitespace ws = true ->
  JS.trimStart (ws +++ String "-" rest) = String "-" rest.
Proof.
  induction ws as [|c ws IH]; [reflexivity|].
  cbn [all_whitespace String.append JS.trimStart]. intros H.
  apply andb_prop in H. destruct H as [Hc Hws]. rewrite Hc. now apply IH.
Qed.

(** X1.  A line counts as a marker line exactly when its first character
    that is not white space is a dash: its text is some white space, then
    a dash, then anything. *)
Theorem startsWithDash_iff_first_visible_is_dash (line : Transcript) :
  startsWithDash line = true <->
  exists ws rest,
    all_whitespace ws = true /\ text line = ws +++ String "-" rest.
Proof.
  unfold startsWithDash, JS.trim. split.
  - intros H. apply trimEnd_starts_with_dash in H. destruct H as [r Hr].
    destruct (trimStart_decomp (text line)) as [ws [Hws Hs]].
    exists ws, r. rewrite <- Hr. auto.
  - intros [ws [rest [Hws ->]]]. rewrite trimStart_whitespace_prefix by assumption.
    destruct (trimEnd_head "-" rest eq_refl) as [r ->].
    unfold JS.startsWith. cbn. now destruct r.
Qed.

(** ** Counting and timing the segments *)

Lemma runs_from_heads (lines : list Transcript) :
  forall first others,
    map (fun run => option_map offset (hd_error run))
      (runs_from (first :: others) lines)
    = Some (offset first)
      :: map (fun l => Some (offset l)) (filter startsWithDash lines).
Proof.
  induction lines as [|line rest IH]; intros first others; [reflexivity|].
  cbn [runs_from filter]. destruct (startsWithDash line).
  - cbn [map hd_error option_map]. f_equal. apply (IH line []).
  - apply (IH first (others ++ [line])).
Qed.

Lemma groupBySentences_offsets (line : Transcript) (rest : list Transcript) :
  map seg_offset (groupBySentences (line :: rest))
  = Some (offset line)
    :: map (fun l => Some (offset l)) (filter startsWithDash rest).
Proof.
  rewrite groupBySentences_runs, groupedTranscripts_cons, map_map.
  apply (runs_from_heads rest line []).
Qed.

(** X2.  A non-empty transcript gives one segment for its first line and
    one for every later marker line, and nothing else; the offsets of the
    segments are the offsets of exactly those lines, in order. *)
Theorem segments_are_first_line_and_markers (line : Transcript)
  (rest : list Transcript) :
  map seg_offset (groupBySentences (line :: rest))
  = Some (offset line)
    :: map (fun l => Some (offset l)) (filter startsWithDash rest) /\
  List.length (groupBySentences (line :: rest))
  = S (List.length (filter startsWithDash rest)).
Proof.
  pose proof (groupBySentences_offsets line rest) as H.
  split; [exact H|].
  apply (f_equal (@List.length _)) in H.
  cbn [List.length] in H. rewrite !length_map in H. exact H.
Qed.

Lemma runs_from_no_marker (lines : list Transcript) :
  Forall (fun l => startsWithDash l = false) lines ->
  forall current, runs_from current lines = [current ++ lines].
Proof.
  induction 1 as [|line rest Hl _ IH]; intros current; cbn [runs_from].
  - now rewrite app_nil_r.
  - rewrite Hl, IH, <- app_assoc. reflexivity.
Qed.

(** X3.  A transcript none of whose lines after the first is a marker line
    collapses into a single segment: all the texts joined by spaces, at the
    offset of the first line; the assembled text is that one line. *)
Theorem unmarked_transcript_is_one_segment (line : Transcript)
  (rest : list Transcript) :
  Forall (fun l => startsWithDash l = false) rest ->
  groupBySentences (line :: rest)
  = [mkSegment (Some (JS.join " " (map text (line :: rest))))
       (Some (offset line))] /\
  assemble (line :: rest)
  = "[" +++ JS.Z_to_string (JS.ceil_div (offset line) 1000) +++ "s] "
    +++ JS.replace_leading_dash (JS.join " " (map text (line :: rest))).
Proof.
  intros Hno.
  assert (H : groupBySentences (line :: rest)
              = [mkSegment (Some (JS.join " " (map text (line :: rest))))
                   (Some (offset line))]).
  { rewrite groupBySentences_runs, groupedTranscripts_cons.
    rewrite runs_from_no_marker by assumption. reflexivity. }
  split; [exact H|].
  unfold assemble. rewrite H. cbn [map JS.join String.concat].
  apply (format_segment_spec (JS.join " " (map text (line :: rest)), offset line)).
Qed.

Lemma unmarked_transcript_witness :
  assemble [mkTranscript "Hello" 0; mkTranscript "world" 1800;
            mkTranscript "again" 4200]
  = "[0s] Hello world again".
Proof.
  refine (eq_trans
            (proj2 (unmarked_transcript_is_one_segment (mkTranscript "Hello" 0)
                      [mkTranscript "world" 1800; mkTranscript "again" 4200] _))
            eq_refl).
  repeat constructor.
Defined.

Lemma runs_from_all_markers (lines : list Transcript) :
  Forall (fun l => startsWithDash l = true) lines ->
  forall current, runs_from current lines = current :: map (fun l => [l]) lines.
Proof.
  induction 1 as [|line rest Hl _ IH]; intros current; cbn [runs_from map].
  - reflexivity.
  - now rewrite Hl, IH.
Qed.

(** X4.  When every line after the first is a marker line, nothing is
    merged: the segments are the lines themselves, one each, with their own
    texts and offsets. *)
Theorem marked_lines_stay_apart (line : Transcript) (rest : list Transcript) :
  Forall (fun l => startsWithDash l = true) rest ->
  groupBySentences (line :: rest) = map spread (line :: rest).
Proof.
  intros Hall.
  rewrite groupBySentences_runs, groupedTranscripts_cons.
  rewrite runs_from_all_markers by assumption.
  cbn [map]. f_equal. rewrite map_map. reflexivity.
Qed.

Lemma marked_lines_witness :
  groupBySentences [mkTranscript "Intro" 0; mkTranscript "- One" 1200;
                    mkTranscript " -Two" 2400]
  = [mkSegment (Some "Intro") (Some 0); mkSegment (Some "- One") (Some 1200);
     mkSegment (Some " -Two") (Some 2400)].
Proof.
  refine (marked_lines_stay_apart (mkTranscript "Intro" 0)
            [mkTranscript "- One" 1200; mkTranscript " -Two" 2400] _).
  repeat constructor.
Defined.

Lemma ceil_div_monotone (a b : Z) :
  a <= b -> JS.ceil_div a 1000 <= JS.ceil_div b 1000.
Proof.
  intros H. unfold JS.ceil_div.
  pose proof (Z.div_le_mono (- b) (- a) 1000 ltac:(lia) ltac:(lia)). lia.
Qed.

Lemma StronglySorted_filter_map {A : Type} (f : A -> Z) (p : A -> bool)
  (l : list A) :
  StronglySorted Z.le (map f l) -> StronglySorted Z.le (map f (filter p l)).
Proof.
  induction l as [|x l IH]; intros H; [constructor|].
  cbn [map] in H. inversion H as [|? ? Hs Hall]; subst.
  cbn [filter]. destruct (p x); [|now apply IH].
  cbn [map]. constructor; [now apply IH|].
  rewrite Forall_forall in *. intros y Hy. apply Hall.
  apply in_map_iff in Hy. destruct Hy as [z [<- Hz]].
  apply filter_In in Hz. apply in_map. tauto.
Qed.

Lemma StronglySorted_map_monotone (g : Z -> Z) (l : list Z) :
  (forall a b, a <= b -> g a <= g b) ->
  StronglySorted Z.le l -> StronglySorted Z.le (map g l).
Proof.
  intros Hg. induction 1 as [|x l Hs IH Hall]; cbn [map]; constructor; auto.
  rewrite Forall_forall in *. intros y Hy.
  apply in_map_iff in Hy. destruct Hy as [z [<- Hz]]. auto.
Qed.

(** X5.  When the offsets of the lines never decrease, neither do the
    offsets of the segments, nor the whole seconds written in front of
    them in the assembled text. *)
Theorem segments_keep_time_order (lines : list Transcript) :
  StronglySorted Z.le (map offset lines) ->
  exists offsets,
    map seg_offset (groupBySentences lines) = map Some offsets /\
    StronglySorted Z.le offsets /\
    StronglySorted Z.le (map (fun ms => JS.ceil_div ms 1000) offsets).
Proof.
  intros Hs. destruct lines as [|line rest].
  - exists []. repeat split; constructor.
  - exists (map offset (line :: filter startsWithDash rest)).
    assert (Ho : StronglySorted Z.le (map offset (line :: filter startsWithDash rest))).
    { cbn [map] in *. inversion Hs as [|? ? Hs' Hall]; subst.
      constructor; [now apply StronglySorted_filter_map|].
      rewrite Forall_forall in *. intros y Hy. apply Hall.
      apply in_map_iff in Hy. destruct Hy as [z [<- Hz]].
      apply filter_In in Hz. apply in_map. tauto. }
    split; [|split].
    + rewrite groupBySentences_offsets.
      cbn [map]. now rewrite map_map.
    + exact Ho.
    + apply StronglySorted_map_monotone; [exact ceil_div_monotone | exact Ho].
Qed.

Lemma segments_keep_time_order_witness :
  exists offsets,
    map seg_offset (groupBySentences Sample.lines) = map Some offsets /\
    StronglySorted Z.le offsets /\
    StronglySorted Z.le (map (fun ms => JS.ceil_div ms 1000) offsets).
Proof.
  refine (segments_keep_time_order Sample.lines _).
  cbn. repeat constructor; lia.
Defined.

(** ** Failures of the services *)

(** X6.  A failure before the throttle is the request's failure as it is,
    and nothing has happened but the calls made so far: a body that the
    schema refuses fails with no call at all; a rejected metadata fetch
    fails after that one call; a rejected transcript fetch fails after the
    metadata fetch, the lookup and the transcript call; in each case the
    store and the request counter are as they were. *)
Theorem failures_before_the_throttle (sv : Services) (req : AppNextApiRequest)
  (w : World) (e : Exception) :
  (YoutubeSummarySchema_parse sv (body req) = inl e ->
   createYoutubeSummary sv req w = mkOutcome (inl e) w []) /\
  (forall url,
     YoutubeSummarySchema_parse sv (body req) = inr url ->
     getVideoSnippetById sv (extractVideoId sv url) = inl e ->
     createYoutubeSummary sv req w
     = mkOutcome (inl e) w [GetVideoSnippetById (extractVideoId sv url)]) /\
  (forall url snippet videoId,
     YoutubeSummarySchema_parse sv (body req) = inr url ->
     getVideoSnippetById sv (extractVideoId sv url) = inr snippet ->
     truthy (extractVideoId sv url) = Some videoId ->
     find (has_key youtube_summary videoId) (lLMTaskOutput w) = None \/
     refresh_requested req = true ->
     transcribeVideo sv url = inl e ->
     createYoutubeSummary sv req w
     = mkOutcome (inl e) w
         [GetVideoSnippetById (extractVideoId sv url);
          FindUnique youtube_summary videoId; TranscribeVideo url]).
Proof.
  split; [|split].
  - intros Hp. run_handler; congruence.
  - intros url Hp Hs. run_handler; congruence.
  - intros url snippet videoId Hp Hs Ht Hwhy He.
    run_handler; destruct Hwhy; congruence.
Qed.

Lemma failures_before_the_throttle_witness :
  createYoutubeSummary services_transcript_down
    (Sample.refresh_request "v=abc") Sample.cached_world
  = mkOutcome (inl (Rejected "no captions")) Sample.cached_world
      [GetVideoSnippetById (Some "abc"); FindUnique youtube_summary "abc";
       TranscribeVideo "v=abc"].
Proof.
  exact (proj2 (proj2 (failures_before_the_throttle services_transcript_down
                         (Sample.refresh_request "v=abc") Sample.cached_world
                         (Rejected "no captions")))
           "v=abc" "snippet" "abc" eq_refl eq_refl eq_refl
           (or_intror eq_refl) eq_refl).
Defined.

(** X7.  When the chat model rejects the call, its rejection is the
    request's failure; the summarization call was the last thing the
    request did, so nothing was parsed and nothing upserted, and the table
    of Summary Records is as it was. *)
Theorem model_rejection_propagates (sv : Services) (req : AppNextApiRequest)
  (w : World) (content : string) (e : Exception) :
  In (ModelCall content) (calls (createYoutubeSummary sv req w)) ->
  model_call sv content = inl e ->
  result (createYoutubeSummary sv req w) = inl e /\
  (exists before,
     calls (createYoutubeSummary sv req w) = before ++ [ModelCall content]) /\
  no_upsert (calls (createYoutubeSummary sv req w)) /\
  lLMTaskOutput (world (createYoutubeSummary sv req w)) = lLMTaskOutput w.
Proof.
  intros Hin Hm.
  run_handler; cbn [In] in Hin;
    repeat match goal with
      | H : _ \/ _ |- _ => destruct H; try discriminate
      | H : False |- _ => destruct H
      | H : ModelCall ?c = ModelCall content |- _ =>
          assert (content = c) by congruence; clear H; subst content
      end;
    try congruence;
    (split; [congruence|]);
    (split; [eexists [_; _; _; _]; reflexivity|]);
    split; trace_solve.
Qed.

Lemma model_rejection_witness :
  result (createYoutubeSummary services_model_down (Sample.request "v=abc")
            Sample.empty_world)
  = inl (Rejected "overloaded") /\
  lLMTaskOutput
    (world (createYoutubeSummary services_model_down (Sample.request "v=abc")
              Sample.empty_world))
  = [].
Proof.
  assert (Hin : In (ModelCall "Youtube video transcript: [0s] Intro mor")
                  (calls (createYoutubeSummary services_model_down
                            (Sample.request "v=abc") Sample.empty_world))).
  { vm_compute. tauto. }
  destruct (model_rejection_propagates services_model_down
              (Sample.request "v=abc") Sample.empty_world
              "Youtube video transcript: [0s] Intro mor"
              (Rejected "overloaded") Hin eq_refl)
    as (Hres & _ & _ & Htable).
  split; assumption.
Defined.

(** ** The refresh flag *)

(** X8.  A refresh is requested exactly when the query says [true] and the
    session has the role SUPERADMIN; a request that does not meet both is
    served exactly like the same body from the same caller with no refresh
    flag and no session at all. *)
Theorem refresh_needs_privilege (sv : Services) (req : AppNextApiRequest)
  (w : World) :
  (refresh_requested req = true <->
   query_refresh req = Some "true" /\
   exists roles, session_roles req = Some roles /\ In "SUPERADMIN" roles) /\
  (refresh_requested req = false ->
   createYoutubeSummary sv req w
   = createYoutubeSummary sv (mkRequest (body req) None None (ip req)) w).
Proof.
  split.
  - unfold refresh_requested. split.
    + intros H. apply andb_prop in H. destruct H as [Hq Hr].
      destruct (query_refresh req) as [q|]; [|discriminate].
      apply String.eqb_eq in Hq. subst q. split; [reflexivity|].
      destruct (session_roles req) as [roles|]; [|discriminate].
      exists roles. split; [reflexivity|].
      apply existsb_exists in Hr. destruct Hr as [x [Hx Heq]].
      apply String.eqb_eq in Heq. now subst x.
    + intros [-> [roles [-> Hin]]]. cbn. apply existsb_exists.
      exists "SUPERADMIN". split; [assumption | reflexivity].
  - intros Hr. unfold createYoutubeSummary. rewrite Hr. reflexivity.
Qed.

Lemma refresh_needs_privilege_witness :
  createYoutubeSummary Sample.services
    (mkRequest "v=abc" (Some "true") (Some ["USER"]) "10.0.0.1")
    Sample.cached_world
  = createYoutubeSummary Sample.services
      (mkRequest "v=abc" None None "10.0.0.1") Sample.cached_world.
Proof.
  exact (proj2 (refresh_needs_privilege Sample.services
                  (mkRequest "v=abc" (Some "true") (Some ["USER"]) "10.0.0.1")
                  Sample.cached_world) eq_refl).
Defined.

(** ** The shape of a request *)

(** X9.  A request can succeed in two ways only.  Either the lookup found
    the record and no refresh was requested: the record found is returned
    after the metadata fetch and the lookup, and the store and the request
    counter are as they were.  Or the whole flow ran: metadata, lookup,
    transcript, throttle, summarization, upsert, in that order and once
    each, and what is returned is the record that was upserted. *)
Theorem success_is_cache_hit_or_full_flow (sv : Services)
  (req : AppNextApiRequest) (w : World) (out : LLMTaskOutput) :
  result (createYoutubeSummary sv req w) = inr out ->
  exists url videoId,
    YoutubeSummarySchema_parse sv (body req) = inr url /\
    truthy (extractVideoId sv url) = Some videoId /\
    ((find (has_key youtube_summary videoId) (lLMTaskOutput w) = Some out /\
      refresh_requested req = false /\
      calls (createYoutubeSummary sv req w)
      = [GetVideoSnippetById (extractVideoId sv url);
         FindUnique youtube_summary videoId] /\
      world (createYoutubeSummary sv req w) = w) \/
     ((find (has_key youtube_summary videoId) (lLMTaskOutput w) = None \/
       refresh_requested req = true) /\
      externalId out = videoId /\
      exists content,
        calls (createYoutubeSummary sv req w)
        = [GetVideoSnippetById (extractVideoId sv url);
           FindUnique youtube_summary videoId; TranscribeVideo url;
           RateLimit 60 2; ModelCall content; Upsert out])).
Proof.
  intros Hres.
  run_handler; try discriminate;
    match goal with
    | H : inr ?p = inr out |- _ =>
        assert (out = p) by congruence; clear H; subst out
    end;
    do 2 eexists;
    (split; [reflexivity|]); (split; [eassumption|]);
    first [ left; repeat split; assumption
          | right; split; [first [left; assumption | right; reflexivity]|];
            split; [reflexivity|]; eexists; reflexivity ].
Qed.

Lemma success_witness :
  exists content,
    calls (createYoutubeSummary Sample.services (Sample.request "v=abc")
             Sample.empty_world)
    = [GetVideoSnippetById (Some "abc"); FindUnique youtube_summary "abc";
       TranscribeVideo "v=abc"; RateLimit 60 2; ModelCall content;
       Upsert (mkLLMTaskOutput "ck0" "abc" "youtube_summary"
                 (mkOutput "snippet" "summary") "usage")].
Proof.
  destruct (success_is_cache_hit_or_full_flow Sample.services
              (Sample.request "v=abc") Sample.empty_world
              (mkLLMTaskOutput "ck0" "abc" "youtube_summary"
                 (mkOutput "snippet" "summary") "usage") eq_refl)
    as (url & videoId & Hp & Ht & [(Hf & _) | (_ & _ & content & Hc)]).
  - cbn in Hp. injection Hp as <-. cbn in Ht. injection Ht as <-.
    discriminate Hf.
  - cbn in Hp. injection Hp as <-. cbn in Ht. injection Ht as <-.
    exists content. exact Hc.
Defined.

(** X10.  Whatever the services answer, a request calls them in the order
    of the flow and each at most once: metadata, lookup, transcript,
    throttle, summarization, upsert.  Nothing is retried and nothing runs
    out of turn. *)
Theorem calls_follow_the_flow (sv : Services) (req : AppNextApiRequest)
  (w : World) :
  StronglySorted lt (map rank (calls (createYoutubeSummary sv req w))).
Proof.
  run_handler; cbn [map rank]; repeat constructor; lia.
Qed.

(** ** The store across requests *)

Lemma upsert_succeeded (sv : Services) (req : AppNextApiRequest) (w : World)
  (payload out : LLMTaskOutput) :
  In (Upsert payload) (calls (createYoutubeSummary sv req w)) ->
  result (createYoutubeSummary sv req w) = inr out ->
  out = payload /\ type payload = youtube_summary /\
  key_taken payload (lLMTaskOutput w) = false /\
  lLMTaskOutput (world (createYoutubeSummary sv req w))
  = if existsb (has_id (id payload)) (lLMTaskOutput w)
    then replace_row payload (lLMTaskOutput w)
    else lLMTaskOutput w ++ [payload].
Proof.
  intros Hin Hres.
  run_handler; try discriminate; cbn [In] in Hin;
    repeat match goal with
      | H : _ \/ _ |- _ => destruct H; try discriminate
      | H : False |- _ => destruct H
      | H : Upsert ?p = Upsert payload |- _ =>
          assert (payload = p) by congruence; clear H; subst payload
      end;
    first [ congruence
          | (split; [congruence|]); (split; [reflexivity|]);
            (split; [first [assumption | reflexivity]|]); reflexivity ].
Qed.

(** A lookup by the key of a payload just upserted finds the payload. *)
Lemma lookup_after_upsert (payload : LLMTaskOutput) (table : list LLMTaskOutput) :
  key_taken payload table = false ->
  find (has_key (type payload) (externalId payload))
    (if existsb (has_id (id payload)) table
     then replace_row payload table
     else table ++ [payload])
  = Some payload.
Proof.
  assert (Hself : has_key (type payload) (externalId payload) payload = true).
  { unfold has_key. now rewrite !String.eqb_refl. }
  induction table as [|r table IH]; intros Hk.
  - cbn. now rewrite Hself.
  - cbn [key_taken existsb] in Hk. apply orb_false_iff in Hk.
    destruct Hk as [Hr Hk]. specialize (IH Hk).
    cbn [existsb replace_row map].
    destruct (has_id (id payload) r) eqn:Hid.
    + cbn [orb find]. now rewrite Hself.
    + cbn [orb negb andb] in *. 
      destruct (existsb (has_id (id payload)) table) eqn:Hex.
      * cbn [find]. rewrite Hr. exact IH.
      * cbn [app find]. rewrite Hr. exact IH.
Qed.

Lemma cache_hit (sv : Services) (req : AppNextApiRequest) (w : World)
  (url videoId : string) (snippet : Json) (record : LLMTaskOutput) :
  YoutubeSummarySchema_parse sv (body req) = inr url ->
  truthy (extractVideoId sv url) = Some videoId ->
  getVideoSnippetById sv (extractVideoId sv url) = inr snippet ->
  find (has_key youtube_summary videoId) (lLMTaskOutput w) = Some record ->
  refresh_requested req = false ->
  createYoutubeSummary sv req w
  = mkOutcome (inr record) w
      [GetVideoSnippetById (extractVideoId sv url);
       FindUnique youtube_summary videoId].
Proof.
  intros Hp Ht Hs Hf Hr. run_handler; congruence.
Qed.

(** X11.  What a request upserts is what the next lookup finds: after a
    request that wrote and returned a record, the lookup by that record's
    external id gives the record back, so a later request for the same
    video without privileged refresh, once its metadata fetch answers,
    returns that very record from the store, with no transcript fetch, no
    summarization call and no write. *)
Theorem written_record_is_served_next (sv : Services)
  (req : AppNextApiRequest) (w : World) (out : LLMTaskOutput) :
  In (Upsert out) (calls (createYoutubeSummary sv req w)) ->
  result (createYoutubeSummary sv req w) = inr out ->
  let w' := world (createYoutubeSummary sv req w) in
  find (has_key youtube_summary (externalId out)) (lLMTaskOutput w') = Some out /\
  forall (sv' : Services) (req' : AppNextApiRequest) url snippet,
    YoutubeSummarySchema_parse sv' (body req') = inr url ->
    truthy (extractVideoId sv' url) = Some (externalId out) ->
    getVideoSnippetById sv' (extractVideoId sv' url) = inr snippet ->
    refresh_requested req' = false ->
    createYoutubeSummary sv' req' w'
    = mkOutcome (inr out) w'
        [GetVideoSnippetById (extractVideoId sv' url);
         FindUnique youtube_summary (externalId out)].
Proof.
  intros Hin Hres w'.
  destruct (upsert_succeeded sv req w out out Hin Hres) as (_ & Hty & Hk & Htab).
  assert (Hfind : find (has_key youtube_summary (externalId out))
                    (lLMTaskOutput w') = Some out).
  { unfold w'. rewrite Htab, <- Hty. now apply lookup_after_upsert. }
  split; [exact Hfind|].
  intros sv' req' url snippet Hp Ht Hs Hr.
  now apply (cache_hit sv' req' w' url (externalId out) snippet out).
Qed.

Lemma written_record_witness :
  let o := createYoutubeSummary Sample.services (Sample.request "v=abc")
             Sample.empty_world in
  let out := mkLLMTaskOutput "ck0" "abc" "youtube_summary"
               (mkOutput "snippet" "summary") "usage" in
  createYoutubeSummary (Sample.services_with 200 "ck1") (Sample.request "v=abc")
    (world o)
  = mkOutcome (inr out) (world o)
      [GetVideoSnippetById (Some "abc"); FindUnique youtube_summary "abc"].
Proof.
  cbv zeta.
  assert (Hin : In (Upsert (mkLLMTaskOutput "ck0" "abc" "youtube_summary"
                              (mkOutput "snippet" "summary") "usage"))
                  (calls (createYoutubeSummary Sample.services
                            (Sample.request "v=abc") Sample.empty_world))).
  { vm_compute. tauto. }
  exact (proj2 (written_record_is_served_next Sample.services
                  (Sample.request "v=abc") Sample.empty_world _ Hin eq_refl)
           (Sample.services_with 200 "ck1") (Sample.request "v=abc")
           "v=abc" "snippet" eq_refl eq_refl eq_refl eq_refl).
Defined.

Lemma replace_row_ids (payload : LLMTaskOutput) (table : list LLMTaskOutput) :
  map id (replace_row payload table) = map id table.
Proof.
  unfold replace_row. rewrite map_map. apply map_ext. intros r.
  unfold has_id. destruct (String.eqb_spec (id r) (id payload)); congruence.
Qed.

(** X12.  No request ever removes a Summary Record or changes the id of
    one: after any request the ids in the table are the ids that were
    there, in the same places, followed by at most one new id. *)
Theorem requests_never_delete_records (sv : Services)
  (req : AppNextApiRequest) (w : World) :
  let table' := lLMTaskOutput (world (createYoutubeSummary sv req w)) in
  map id table' = map id (lLMTaskOutput w) \/
  exists payload,
    In (Upsert payload) (calls (createYoutubeSummary sv req w)) /\
    existsb (has_id (id payload)) (lLMTaskOutput w) = false /\
    map id table' = map id (lLMTaskOutput w) ++ [id payload].
Proof.
  cbv zeta. run_handler; try (left; reflexivity).
  - left. apply replace_row_ids.
  - right. eexists. split; [cbn; eauto 10|]. split; [eassumption|].
    now rewrite map_app.
  - left. apply replace_row_ids.
  - right. eexists. split; [cbn; eauto 10|]. split; [eassumption|].
    now rewrite map_app.
Qed.

Lemma returned_is_stored (sv : Services) (req : AppNextApiRequest) (w : World)
  (out : LLMTaskOutput) :
  result (createYoutubeSummary sv req w) = inr out ->
  find (has_key youtube_summary (externalId out))
    (lLMTaskOutput (world (createYoutubeSummary sv req w)))
  = Some out.
Proof.
  intros Hres.
  run_handler; try discriminate;
    match goal with
    | H : inr ?p = inr out |- _ =>
        assert (out = p) by congruence; clear H; subst out
    end.
  all: try match goal with
         | F : find (has_key _ ?v) _ = Some ?l |- find (has_key _ (externalId ?l)) _ = _ =>
             destruct (find_has_key _ _ _ _ F) as (_ & _ & ->); exact F
         end.
  all: match goal with
       | K : key_taken ?p ?t = false, E : existsb (has_id (id ?p)) ?t = _ |- _ =>
           pose proof (lookup_after_upsert p t K) as L; rewrite E in L; exact L
       end.
Qed.

(** X14.  Record ids stay non-empty: when no record of the table has an
    empty id and the id generator does not mint one, no record has an empty
    id after the request, whatever the request did, and neither has the
    record that the request returns. *)
Theorem ids_stay_nonempty (sv : Services) (req : AppNextApiRequest) (w : World) :
  cuid sv <> "" ->
  Forall (fun r => id r <> "") (lLMTaskOutput w) ->
  Forall (fun r => id r <> "")
    (lLMTaskOutput (world (createYoutubeSummary sv req w))) /\
  forall out, result (createYoutubeSummary sv req w) = inr out -> id out <> "".
Proof.
  intros Hcuid Hwf.
  pose proof (nonempty_ids_preserved sv req w Hcuid Hwf) as Hwf'.
  split; [exact Hwf'|].
  intros out Hres. apply returned_is_stored in Hres.
  apply find_some in Hres. destruct Hres as [Hin _].
  rewrite Forall_forall in Hwf'. now apply Hwf'.
Qed.

Lemma ids_stay_nonempty_witness :
  Forall (fun r => id r <> "")
    (lLMTaskOutput
       (world (createYoutubeSummary Sample.services (Sample.request "v=def")
                 Sample.cached_world))).
Proof.
  apply (ids_stay_nonempty Sample.services (Sample.request "v=def")
           Sample.cached_world).
  - discriminate.
  - repeat constructor. discriminate.
Defined.

(** X17.  What a request returns is what the store holds: the record it
    answers with is, in the table as the request leaves it, the record
    found under that record's external id and the type [youtube_summary]. *)
Theorem returned_record_is_the_stored_one (sv : Services)
  (req : AppNextApiRequest) (w : World) (out : LLMTaskOutput) :
  result (createYoutubeSummary sv req w) = inr out ->
  let table' := lLMTaskOutput (world (createYoutubeSummary sv req w)) in
  find (has_key youtube_summary (externalId out)) table' = Some out /\
  In out table' /\ type out = youtube_summary.
Proof.
  intros Hres. cbv zeta.
  pose proof (returned_is_stored sv req w out Hres) as Hfind.
  split; [exact Hfind|].
  destruct (find_has_key _ _ _ _ Hfind) as (Hin & Hty & _). auto.
Qed.

Lemma returned_record_witness :
  In (mkLLMTaskOutput "ck9" "abc" "youtube_summary"
        (mkOutput "snippet" "summary") "usage")
    (lLMTaskOutput
       (world (createYoutubeSummary Sample.services
                 (Sample.refresh_request "v=abc") Sample.cached_world))).
Proof.
  exact (proj1 (proj2 (returned_record_is_the_stored_one Sample.services
                         (Sample.refresh_request "v=abc") Sample.cached_world
                         _ eq_refl))).
Defined.

(** X15.  A url whose identifier is missing or is the empty string never
    gets past the identifier check: the one call made is the metadata
    fetch, the store and the request counter are as they were, and the
    request fails, with the error "The url is not a valid youtube video."
    when the metadata fetch answered and with the rejection of that fetch
    otherwise. *)
Theorem missing_id_stops_at_the_check (sv : Services) (req : AppNextApiRequest)
  (w : World) (url : string) :
  YoutubeSummarySchema_parse sv (body req) = inr url ->
  extractVideoId sv url = None \/ extractVideoId sv url = Some "" ->
  calls (createYoutubeSummary sv req w)
  = [GetVideoSnippetById (extractVideoId sv url)] /\
  world (createYoutubeSummary sv req w) = w /\
  (forall snippet,
     getVideoSnippetById sv (extractVideoId sv url) = inr snippet ->
     result (createYoutubeSummary sv req w)
     = inl (Error "The url is not a valid youtube video.")) /\
  (forall e,
     getVideoSnippetById sv (extractVideoId sv url) = inl e ->
     result (createYoutubeSummary sv req w) = inl e).
Proof.
  intros Hp Hid.
  assert (Ht : truthy (extractVideoId sv url) = None)
    by (destruct Hid as [-> | ->]; reflexivity).
  destruct (unparseable_url_outcome sv req w url Hp Ht) as (Hc & Hw & Hres).
  split; [exact Hc|]. split; [exact Hw|]. split.
  - intros snippet Hs. destruct Hres as [Hres | [e [He _]]]; congruence.
  - intros e He. run_handler; congruence.
Qed.

Lemma missing_id_witness :
  let o := createYoutubeSummary Sample.services (Sample.request "v=")
             Sample.cached_world in
  calls o = [GetVideoSnippetById (Some "")] /\
  world o = Sample.cached_world /\
  result o = inl (Error "The url is not a valid youtube video.").
Proof.
  destruct (missing_id_stops_at_the_check Sample.services (Sample.request "v=")
              Sample.cached_world "v=" eq_refl (or_intror eq_refl))
    as (Hc & Hw & Hok & _).
  split; [exact Hc|]. split; [exact Hw|]. exact (Hok "snippet" eq_refl).
Defined.

(** X16.  The refresh flag matters only when a record exists: for a video
    with no Summary Record, two requests with the same body from the same
    caller are served alike whatever their query and session say. *)
Theorem refresh_is_moot_without_a_record (sv : Services)
  (req req' : AppNextApiRequest) (w : World) (url : string) :
  body req' = body req -> ip req' = ip req ->
  YoutubeSummarySchema_parse sv (body req) = inr url ->
  (forall videoId,
     truthy (extractVideoId sv url) = Some videoId ->
     find (has_key youtube_summary videoId) (lLMTaskOutput w) = None) ->
  createYoutubeSummary sv req' w = createYoutubeSummary sv req w.
Proof.
  intros Hb Hi Hp Hnone. unfold createYoutubeSummary. rewrite Hb, Hi.
  generalize (refresh_requested req'), (refresh_requested req).
  intros refresh' refresh.
  run_handler; try reflexivity;
    match goal with
    | H : truthy _ = Some ?v, F : find _ _ = Some _ |- _ =>
        rewrite (Hnone v) in F by congruence; discriminate F
    end.
Qed.

Lemma refresh_is_moot_witness :
  createYoutubeSummary Sample.services (Sample.refresh_request "v=abc")
    Sample.empty_world
  = createYoutubeSummary Sample.services (Sample.request "v=abc")
      Sample.empty_world.
Proof.
  exact (refresh_is_moot_without_a_record Sample.services (Sample.request "v=abc")
           (Sample.refresh_request "v=abc") Sample.empty_world "v=abc"
           eq_refl eq_refl eq_refl (fun _ _ => eq_refl)).
Defined.

(** ** The list of the latest summaries *)

Lemma insert_desc_perm (createdAt : LLMTaskOutput -> Z) (row : LLMTaskOutput)
  (ordered : list LLMTaskOutput) :
  Permutation (insert_desc createdAt row ordered) (row :: ordered).
Proof.
  induction ordered as [|x rest IH]; cbn [insert_desc]; [reflexivity|].
  destruct (createdAt x <? createdAt row); [reflexivity|].
  rewrite IH. apply perm_swap.
Qed.

Lemma orderBy_desc_perm (createdAt : LLMTaskOutput -> Z)
  (rows : list LLMTaskOutput) :
  Permutation (orderBy_desc createdAt rows) rows.
Proof.
  induction rows as [|r rows IH]; [reflexivity|].
  cbn [orderBy_desc fold_right]. rewrite insert_desc_perm.
  now apply perm_skip.
Qed.

Lemma insert_desc_sorted (createdAt : LLMTaskOutput -> Z) (row : LLMTaskOutput)
  (ordered : list LLMTaskOutput) :
  StronglySorted (fun a b => createdAt b <= createdAt a) ordered ->
  StronglySorted (fun a b => createdAt b <= createdAt a)
    (insert_desc createdAt row ordered).
Proof.
  induction 1 as [|x rest Hs IH Hall]; cbn [insert_desc].
  - repeat constructor.
  - destruct (Z.ltb_spec (createdAt x) (createdAt row)).
    + constructor; [now constructor|].
      constructor; [lia|]. rewrite Forall_forall in *.
      intros y Hy. specialize (Hall y Hy). cbn in Hall. lia.
    + constructor; [exact IH|]. rewrite Forall_forall in *.
      intros y Hy.
      apply (Permutation_in _ (insert_desc_perm createdAt row rest)) in Hy.
      destruct Hy as [<- | Hy]; [lia | now apply Hall].
Qed.

Lemma orderBy_desc_sorted (createdAt : LLMTaskOutput -> Z)
  (rows : list LLMTaskOutput) :
  StronglySorted (fun a b => createdAt b <= createdAt a)
    (orderBy_desc createdAt rows).
Proof.
  induction rows as [|r rows IH]; [constructor|].
  cbn [orderBy_desc fold_right]. now apply insert_desc_sorted.
Qed.

Lemma StronglySorted_app_inv {A : Type} (R : A -> A -> Prop) (a b : list A) :
  StronglySorted R (a ++ b) ->
  StronglySorted R a /\ forall x y, In x a -> In y b -> R x y.
Proof.
  induction a as [|h a IH]; cbn [app]; intros H.
  - split; [constructor | contradiction].
  - inversion H as [|? ? Hs Hall]; subst. destruct (IH Hs) as [Ha Hab].
    rewrite Forall_forall in Hall. split.
    + constructor; [assumption|]. rewrite Forall_forall.
      intros y Hy. apply Hall. apply in_or_app. now left.
    + intros x y [<- | Hx] Hy; [|now apply Hab].
      apply Hall. apply in_or_app. now right.
Qed.

(** X13.  GET answers with the three most recently created records of
    type [youtube_summary], newest first: at most three, all of them when
    there are no more than three, each one a record of the table of that
    type, ordered by creation time from the newest, and no record of that
    type that is left out is newer than one that is returned. *)
Theorem getLatestVideos_newest_three (createdAt : LLMTaskOutput -> Z)
  (w : World) :
  let summaries :=
    filter (fun r => (type r =? youtube_summary)%string) (lLMTaskOutput w) in
  let latest := getLatestVideos createdAt w in
  List.length latest = Nat.min 3 (List.length summaries) /\
  (forall r, In r latest -> In r (lLMTaskOutput w) /\ type r = youtube_summary) /\
  StronglySorted (fun a b => createdAt b <= createdAt a) latest /\
  exists older,
    Permutation (latest ++ older) summaries /\
    forall x y, In x latest -> In y older -> createdAt y <= createdAt x.
Proof.
  cbv zeta. unfold getLatestVideos, findMany.
  set (summaries := filter _ (lLMTaskOutput w)).
  set (ordered := orderBy_desc createdAt summaries).
  pose proof (orderBy_desc_perm createdAt summaries) as Hperm.
  pose proof (orderBy_desc_sorted createdAt summaries) as Hsorted.
  fold ordered in Hperm, Hsorted.
  rewrite <- (firstn_skipn 3 ordered) in Hsorted.
  apply StronglySorted_app_inv in Hsorted. destruct Hsorted as [Hfirst Hdom].
  split; [|split; [|split]].
  - rewrite length_firstn. now rewrite (Permutation_length Hperm).
  - intros r Hr.
    assert (Hr' : In r ordered).
    { rewrite <- (firstn_skipn 3 ordered). apply in_or_app. now left. }
    clear Hr. rename Hr' into Hr. apply (Permutation_in _ Hperm) in Hr. apply filter_In in Hr.
    destruct Hr as [Hin Hty]. apply String.eqb_eq in Hty. auto.
  - exact Hfirst.
  - exists (skipn 3 ordered). split; [|exact Hdom].
    now rewrite firstn_skipn.
Qed.
